(** * Philips Hue integration: config-entry lifecycle

    A shallow embedding of [homeassistant/components/hue/__init__.py]:
    the legacy (YAML) importer [async_setup], the entry reconciler
    [async_setup_entry] and [async_unload_entry], together with the
    properties their specification states about them.

    Python dictionaries are finite maps ([gmap]) keyed by strings, the
    mutable objects ([hass], [entry]) are threaded through a state monad
    whose computations may raise, and every call into a collaborator
    (entry store, device registry, notification sink, logger, task
    scheduler) is recorded in a log kept in the state. *)

From Stdlib Require Import ZArith NArith Ascii String List Bool Lia.
From stdpp Require Import base option strings list gmap fin_maps.

Local Open Scope string_scope.
Local Open Scope list_scope.

(** ** Python values *)

(** The scalars a config entry stores: [None], [bool], [int] and [str]. *)
Inductive value : Type :=
| VNone
| VBool (b : bool)
| VInt (z : Z)
| VStr (s : string).

#[global] Instance value_eq_dec : EqDecision value.
Proof. solve_decision. Defined.

#[global] Instance value_inhabited : Inhabited value := populate VNone.

(** [bool] is a subclass of [int]: [True == 1] and [False == 0]. *)
Definition as_int (v : value) : option Z :=
  match v with
  | VBool true => Some 1%Z
  | VBool false => Some 0%Z
  | VInt z => Some z
  | _ => None
  end.

(** Python's [==] on these values. *)
Definition py_eq (a b : value) : bool :=
  match a, b with
  | VNone, VNone => true
  | VStr s, VStr t => String.eqb s t
  | _, _ =>
      match as_int a, as_int b with
      | Some x, Some y => Z.eqb x y
      | _, _ => false
      end
  end.

(** Python's [!=]. *)
Definition py_ne (a b : value) : bool := negb (py_eq a b).

(** Python's [<] on [str]: lexicographic on the code points. *)
Fixpoint str_lt (s t : string) : bool :=
  match s, t with
  | _, EmptyString => false
  | EmptyString, String _ _ => true
  | String a s', String b t' =>
      if (N_of_ascii a <? N_of_ascii b)%N then true
      else if (N_of_ascii b <? N_of_ascii a)%N then false
      else str_lt s' t'
  end.

(** ** Constants *)

(** Modelled from the spec: [const.py] is not among the sources; the flag
    keys are the names the specification gives to the two flags. *)
Definition CONF_ALLOW_UNREACHABLE : string := "allow_unreachable".
Definition CONF_ALLOW_HUE_GROUPS : string := "allow_hue_groups".

(** [homeassistant.const.CONF_HOST]; the module itself writes ["host"]
    wherever it does not use the constant. *)
Definition CONF_HOST : string := "host".

(** [config_entries.SOURCE_IMPORT], the only flow source used here. *)
Inductive flow_source : Type := SOURCE_IMPORT.

(** [dr.CONNECTION_NETWORK_MAC], the only connection kind used here. *)
Inductive connection_kind : Type := CONNECTION_NETWORK_MAC.

(** ** Data model *)

(** A bridge record of the YAML configuration, as [BRIDGE_CONFIG_SCHEMA]
    delivers it: [host] is required and a string, the two flags are
    optional booleans, [filename] is an optional string. *)
Record BridgeConf : Type := mkBridgeConf {
  conf_host : string;
  conf_allow_unreachable : option bool;
  conf_allow_hue_groups : option bool;
  conf_filename : option string
}.

(** The record seen as the dictionary it is: [key in config] is
    [is_Some (conf_get key config)] and [config[key]] is its content. *)
Definition conf_get (key : string) (c : BridgeConf) : option value :=
  if String.eqb key CONF_HOST then Some (VStr (conf_host c))
  else if String.eqb key CONF_ALLOW_UNREACHABLE
       then VBool <$> conf_allow_unreachable c
  else if String.eqb key CONF_ALLOW_HUE_GROUPS
       then VBool <$> conf_allow_hue_groups c
  else if String.eqb key "filename" then VStr <$> conf_filename c
  else None.

(** [config_entries.ConfigEntry], the fields this module reads or sets. *)
Record ConfigEntry : Type := mkConfigEntry {
  entry_id : string;
  unique_id : option string;
  data : gmap string value;
  options : gmap string value
}.

(** [bridge.api.config], the descriptor read after a successful setup. *)
Record BridgeConfig : Type := mkBridgeConfig {
  bridgeid : string;
  mac : string;
  name : string;
  modelid : string;
  swversion : string;
  swupdate2_bridge_state : string
}.

(** Modelled from the spec: [bridge.py] is not among the sources.  A
    [HueBridge] answers [async_setup()] and [async_reset()] with a boolean
    and exposes the descriptor [api.config]. *)
Record HueBridge : Type := mkHueBridge {
  bridge_async_setup : bool;
  bridge_async_reset : bool;
  bridge_api_config : BridgeConfig
}.

(** One call of [hass.config_entries.async_update_entry]: the keyword
    arguments that were passed ([None] for an argument left out). *)
Record UpdateCall : Type := mkUpdateCall {
  upd_unique_id : option string;
  upd_data : option (gmap string value);
  upd_options : option (gmap string value)
}.

(** One [hass.config_entries.flow.async_init] handed to
    [hass.async_create_task]. *)
Record FlowInit : Type := mkFlowInit {
  flow_domain : string;
  flow_source_ : flow_source;
  flow_data : gmap string value
}.

(** One call of [device_registry.async_get_or_create]. *)
Record DeviceCall : Type := mkDeviceCall {
  dev_config_entry_id : string;
  dev_connections : list (connection_kind * string);
  dev_identifiers : list (string * string);
  dev_manufacturer : string;
  dev_name : string;
  dev_model : string;
  dev_sw_version : string
}.

(** One call of [persistent_notification.async_create]. *)
Record Notification : Type := mkNotification {
  note_message : string;
  note_title : string;
  note_id : string
}.

(** The [hass] object: the two dictionaries this module keeps in
    [hass.data], the entries of the domain, and the logs of the calls made
    into the platform. *)
Record Hass : Type := mkHass {
  data_domain : gmap string HueBridge;     (* hass.data[DOMAIN] *)
  data_configs : gmap string BridgeConf;   (* hass.data[DATA_CONFIGS] *)
  async_entries : list ConfigEntry;        (* config_entries.async_entries(DOMAIN) *)
  update_calls : list UpdateCall;          (* persistence writes, oldest first *)
  created_tasks : list FlowInit;
  device_calls : list DeviceCall;
  notifications : list Notification;
  warnings : list (string * string * string)
}.

(** The state of one [async_setup_entry] call: [hass] and the entry
    object, which [async_update_entry] mutates in place.  The list
    [async_entries] is what [async_setup] reads; the entry a run
    reconciles is [st_entry], the list is not kept in step with it, and
    nothing is stated about the list after such a run. *)
Record State : Type := mkState {
  st_hass : Hass;
  st_entry : ConfigEntry
}.

(** ** Computations that read and write a state and may raise *)

Inductive exn : Type := KeyError (key : string).

Inductive outcome (A : Type) : Type :=
| Return (a : A)
| Raise (e : exn).
Arguments Return {A} a.
Arguments Raise {A} e.

Definition M (S A : Type) : Type := S -> S * outcome A.

#[global] Instance M_ret {S} : MRet (M S) :=
  fun A (a : A) s => (s, Return a).

#[global] Instance M_bind {S} : MBind (M S) :=
  fun A B (k : A -> M S B) (m : M S A) s =>
    match m s with
    | (s', Return a) => k a s'
    | (s', Raise e) => (s', Raise e)
    end.

Definition raise {S A} (e : exn) : M S A := fun s => (s, Raise e).

Definition get {S} : M S S := fun s => (s, Return s).

Definition modify {S} (f : S -> S) : M S unit := fun s => (f s, Return tt).

(** [d[key]]: raises [KeyError] on a missing key. *)
Definition getitem {S} (d : gmap string value) (key : string) : M S value :=
  match d !! key with
  | Some v => mret v
  | None => raise (KeyError key)
  end.

(** ** State updates *)

Definition set_data_domain (f : gmap string HueBridge -> gmap string HueBridge)
    (h : Hass) : Hass :=
  mkHass (f (data_domain h)) (data_configs h) (async_entries h)
         (update_calls h) (created_tasks h) (device_calls h)
         (notifications h) (warnings h).

Definition set_data_configs (f : gmap string BridgeConf -> gmap string BridgeConf)
    (h : Hass) : Hass :=
  mkHass (data_domain h) (f (data_configs h)) (async_entries h)
         (update_calls h) (created_tasks h) (device_calls h)
         (notifications h) (warnings h).

Definition log_update (u : UpdateCall) (h : Hass) : Hass :=
  mkHass (data_domain h) (data_configs h) (async_entries h)
         (update_calls h ++ [u]) (created_tasks h) (device_calls h)
         (notifications h) (warnings h).

Definition log_task (t : FlowInit) (h : Hass) : Hass :=
  mkHass (data_domain h) (data_configs h) (async_entries h)
         (update_calls h) (created_tasks h ++ [t]) (device_calls h)
         (notifications h) (warnings h).

Definition log_device (d : DeviceCall) (h : Hass) : Hass :=
  mkHass (data_domain h) (data_configs h) (async_entries h)
         (update_calls h) (created_tasks h) (device_calls h ++ [d])
         (notifications h) (warnings h).

Definition log_notification (n : Notification) (h : Hass) : Hass :=
  mkHass (data_domain h) (data_configs h) (async_entries h)
         (update_calls h) (created_tasks h) (device_calls h)
         (notifications h ++ [n]) (warnings h).

Definition log_warning (w : string * string * string) (h : Hass) : Hass :=
  mkHass (data_domain h) (data_configs h) (async_entries h)
         (update_calls h) (created_tasks h) (device_calls h)
         (notifications h) (warnings h ++ [w]).

(** Modelled from the spec: [config_entries.py] is not among the sources.
    The update operation replaces the fields it is given on the entry
    object, leaves the others, and persists: one write per call. *)
Definition apply_update (u : UpdateCall) (e : ConfigEntry) : ConfigEntry :=
  mkConfigEntry (entry_id e)
    (match upd_unique_id u with Some i => Some i | None => unique_id e end)
    (default (data e) (upd_data u))
    (default (options e) (upd_options u)).

Definition async_update_entry (u : UpdateCall) : M State unit :=
  modify (fun s => mkState (log_update u (st_hass s)) (apply_update u (st_entry s))).

Definition on_hass (f : Hass -> Hass) : M State unit :=
  modify (fun s => mkState (f (st_hass s)) (st_entry s)).

Definition get_entry : M State ConfigEntry :=
  fun s => (s, Return (st_entry s)).

Definition get_hass : M State Hass :=
  fun s => (s, Return (st_hass s)).

(** [hass.data[DATA_CONFIGS].get(host)]: the table is keyed by host
    strings, so a host that is not a string finds nothing. *)
Definition configs_get (configs : gmap string BridgeConf) (host : value)
    : option BridgeConf :=
  match host with
  | VStr h => configs !! h
  | _ => None
  end.

(** [host in configured_hosts], for the set
    [{entry.data.get("host") for entry in ...}]: membership is decided by
    [==], so the set is kept as the list of its elements. *)
Definition configured_hosts (entries : list ConfigEntry) : list value :=
  map (fun entry => default VNone (data entry !! "host")) entries.

Definition host_in (host : string) (hosts : list value) : bool :=
  existsb (py_eq (VStr host)) hosts.

(** ** The module *)

Section Hue.

(** What the module imports without defining: the integration domain, the
    two documented defaults of [const.py] and [aiohue]'s normalisation of
    a bridge identifier. *)
Variable DOMAIN : string.
Variable DEFAULT_ALLOW_UNREACHABLE : bool.
Variable DEFAULT_ALLOW_HUE_GROUPS : bool.
Variable normalize_bridge_id : string -> string.

(** The object [HueBridge(hass, entry)] evaluates to. *)
Variable bridge : HueBridge.

(** *** [async_setup] *)

(** The body of [for bridge_conf in bridges]; [configured_hosts] is
    computed once, before the loop. *)
Definition async_setup_bridge (hosts : list value) (bridge_conf : BridgeConf)
    : M Hass unit :=
  let host := conf_host bridge_conf in
  modify (set_data_configs (insert host bridge_conf)) ;;
  if host_in host hosts then mret tt
  else
    modify (log_task
      (mkFlowInit DOMAIN SOURCE_IMPORT {[ "host" := VStr (conf_host bridge_conf) ]})).

Fixpoint async_setup_loop (hosts : list value) (bridges : list BridgeConf)
    : M Hass unit :=
  match bridges with
  | [] => mret tt
  | bridge_conf :: rest =>
      async_setup_bridge hosts bridge_conf ;;
      async_setup_loop hosts rest
  end.

(** [config] is [config.get(DOMAIN)] down to the bridges: the outer
    [option] is the presence of [DOMAIN], the inner one the presence of
    [CONF_BRIDGES]. *)
Definition async_setup (config : option (option (list BridgeConf)))
    : M Hass bool :=
  let conf := default None config in
  modify (set_data_domain (fun _ => ∅)) ;;
  modify (set_data_configs (fun _ => ∅)) ;;
  match conf with
  | None => mret true
  | Some bridges =>
      hass ← get ;
      let hosts := configured_hosts (async_entries hass) in
      async_setup_loop hosts bridges ;;
      mret true
  end.

(** *** [async_setup_entry] *)

(** Lines 107-119: migrate allow_unreachable from data to options. *)
Definition migrate_allow_unreachable : M State unit :=
  entry ← get_entry ;
  match options entry !! CONF_ALLOW_UNREACHABLE,
        data entry !! CONF_ALLOW_UNREACHABLE with
  | None, Some v =>
      if py_ne v (VBool DEFAULT_ALLOW_UNREACHABLE) then
        let options' := <[ CONF_ALLOW_UNREACHABLE := v ]> (options entry) in
        let data' := delete CONF_ALLOW_UNREACHABLE (data entry) in
        async_update_entry (mkUpdateCall None (Some data') (Some options'))
      else mret tt
  | _, _ => mret tt
  end.

(** Lines 121-133: migrate allow_hue_groups from data to options. *)
Definition migrate_allow_hue_groups : M State unit :=
  entry ← get_entry ;
  match options entry !! CONF_ALLOW_HUE_GROUPS,
        data entry !! CONF_ALLOW_HUE_GROUPS with
  | None, Some v =>
      if py_ne v (VBool DEFAULT_ALLOW_HUE_GROUPS) then
        let options' := <[ CONF_ALLOW_HUE_GROUPS := v ]> (options entry) in
        let data' := delete CONF_ALLOW_HUE_GROUPS (data entry) in
        async_update_entry (mkUpdateCall None (Some data') (Some options'))
      else mret tt
  | _, _ => mret tt
  end.

(** [key in config and (key not in entry.options or
    config[key] != entry.options[key])]. *)
Definition overrides (key : string) (config : BridgeConf) (entry : ConfigEntry)
    : option value :=
  match conf_get key config with
  | Some c =>
      match options entry !! key with
      | None => Some c
      | Some o => if py_ne c o then Some c else None
      end
  | None => None
  end.

(** Lines 135-153: overwrite from the YAML configuration. *)
Definition overwrite_from_yaml (config : option BridgeConf) : M State unit :=
  match config with
  | None => mret tt
  | Some config =>
      entry ← get_entry ;
      let options0 : gmap string value := ∅ in
      let options1 :=
        match overrides CONF_ALLOW_HUE_GROUPS config entry with
        | Some c => <[ CONF_ALLOW_HUE_GROUPS := c ]> options0
        | None => options0
        end in
      let options2 :=
        match overrides CONF_ALLOW_UNREACHABLE config entry with
        | Some c => <[ CONF_ALLOW_UNREACHABLE := c ]> options1
        | None => options1
        end in
      if bool_decide (options2 ≠ ∅) then
        async_update_entry
          (mkUpdateCall None None (Some (options2 ∪ options entry)))
      else mret tt
  end.

(** Lines 180-194: the firmware advisory. *)
Definition security_notification : Notification :=
  mkNotification
    "Your Hue hub has a known security vulnerability ([CVE-2020-6007](https://cve.circl.lu/cve/CVE-2020-6007)). Go to the Hue app and check for software updates."
    "Signify Hue"
    "hue_hub_firmware".

Definition update_warning : string * string * string :=
  ("Please check for software updates of the bridge in the Philips Hue App.",
   "Signify Hue",
   "hue_hub_firmware").

Definition firmware_advisory (config : BridgeConfig) : M State unit :=
  if String.eqb (modelid config) "BSB002"
     && str_lt (swversion config) "1935144040" then
    on_hass (log_notification security_notification)
  else if String.eqb (swupdate2_bridge_state config) "readytoinstall" then
    on_hass (log_warning update_warning)
  else mret tt.

Definition async_setup_entry : M State bool :=
  entry ← get_entry ;
  hass ← get_hass ;
  host ← getitem (data entry) "host" ;
  let config := configs_get (data_configs hass) host in
  migrate_allow_unreachable ;;
  migrate_allow_hue_groups ;;
  overwrite_from_yaml config ;;
  if negb (bridge_async_setup bridge) then mret false
  else
    on_hass (set_data_domain (insert (entry_id entry) bridge)) ;;
    let config := bridge_api_config bridge in
    entry ← get_entry ;
    match unique_id entry with
    | None =>
        async_update_entry
          (mkUpdateCall (Some (normalize_bridge_id (bridgeid config))) None None)
    | Some _ => mret tt
    end ;;
    on_hass (log_device
      (mkDeviceCall (entry_id entry)
         [(CONNECTION_NETWORK_MAC, mac config)]
         [(DOMAIN, bridgeid config)]
         "Signify" (name config) (modelid config) (swversion config))) ;;
    firmware_advisory config ;;
    mret true.

(** *** [async_unload_entry] *)

(** [hass.data[DOMAIN].pop(entry.entry_id)] *)
Definition pop_bridge (key : string) : M Hass HueBridge :=
  fun hass =>
    match data_domain hass !! key with
    | Some b => (set_data_domain (delete key) hass, Return b)
    | None => (hass, Raise (KeyError key))
    end.

Definition async_unload_entry (entry : ConfigEntry) : M Hass bool :=
  bridge ← pop_bridge (entry_id entry) ;
  mret (bridge_async_reset bridge).


(** ** Vocabulary of the specification *)

(** The rule of a flag migration: the flag is present in [data], absent
    from [options], and its value differs from the documented default. *)
Definition migration_due (key : string) (dflt : bool) (entry : ConfigEntry)
    : Prop :=
  ∃ v, data entry !! key = Some v
       ∧ options entry !! key = None
       ∧ py_ne v (VBool dflt) = true.

(** The rule of the legacy override: the legacy record holds the flag, and
    [options] lacks it or holds a different value. *)
Definition legacy_differs (key : string) (config : BridgeConf)
    (entry : ConfigEntry) : Prop :=
  ∃ c, conf_get key config = Some c
       ∧ (options entry !! key = None
          ∨ ∃ o, options entry !! key = Some o ∧ py_ne c o = true).

(** The legacy record agrees with [options] on a flag it holds. *)
Definition legacy_matches (key : string) (config : BridgeConf)
    (entry : ConfigEntry) : Prop :=
  ∀ c, conf_get key config = Some c →
       ∃ o, options entry !! key = Some o ∧ py_eq c o = true.

(** A host is stored by one of the existing entries. *)
Definition host_stored (entries : list ConfigEntry) (host : string) : Prop :=
  ∃ entry, entry ∈ entries ∧ data entry !! "host" = Some (VStr host).

(** The create-entry request for a host. *)
Definition import_request (host : string) : FlowInit :=
  mkFlowInit DOMAIN SOURCE_IMPORT {[ "host" := VStr host ]}.

(** How many of the requests carry exactly [{host: <host>}]. *)
Definition requests_for (host : string) (tasks : list FlowInit) : nat :=
  length (filter (fun t => flow_data t = {[ "host" := VStr host ]}) tasks).

(** How many legacy records name the host. *)
Definition records_for (host : string) (bridges : list BridgeConf) : nat :=
  length (filter (fun bc => conf_host bc = host) bridges).

(** A stage that moves one flag from [data] to [options]: when the rule
    holds the value is copied, the key removed and one write issued that
    carries both maps; otherwise nothing happens. *)
Definition moves_flag (key : string) (dflt : bool) (stage : M State unit)
    : Prop :=
  ∀ s : State,
    let s' := (stage s).1 in
    (stage s).2 = Return tt
    ∧ (migration_due key dflt (st_entry s) →
       ∃ v, data (st_entry s) !! key = Some v
            ∧ options (st_entry s') = <[ key := v ]> (options (st_entry s))
            ∧ data (st_entry s') = delete key (data (st_entry s))
            ∧ update_calls (st_hass s')
              = update_calls (st_hass s)
                  ++ [mkUpdateCall None (Some (data (st_entry s')))
                                   (Some (options (st_entry s')))])
    ∧ (¬ migration_due key dflt (st_entry s) → s' = s).

(** The bridge records of a legacy configuration. *)
Definition legacy_bridges (config : option (option (list BridgeConf)))
    : list BridgeConf :=
  match config with
  | Some (Some bridges) => bridges
  | _ => []
  end.

(** The requests a run of [async_setup] schedules. *)
Definition new_tasks (config : option (option (list BridgeConf)))
    (hass : Hass) : list FlowInit :=
  drop (length (created_tasks hass))
       (created_tasks (async_setup config hass).1).

(** One request for every legacy host that no entry stores, none for a
    host that an entry stores. *)
Definition one_request_per_host (config : option (option (list BridgeConf)))
    (hass : Hass) : Prop :=
  ∀ host, host ∈ conf_host <$> legacy_bridges config →
    (¬ host_stored (async_entries hass) host →
     requests_for host (new_tasks config hass) = 1)
    ∧ (host_stored (async_entries hass) host →
       requests_for host (new_tasks config hass) = 0).

(** [data] holds neither of the two flags. *)
Definition flags_gone_from_data (entry : ConfigEntry) : Prop :=
  data entry !! CONF_ALLOW_UNREACHABLE = None
  ∧ data entry !! CONF_ALLOW_HUE_GROUPS = None.

(** The writes a computation adds to the log of persistence writes. *)
Definition writes_of {A} (m : M State A) (s : State) (new : list UpdateCall)
    : Prop :=
  update_calls (st_hass (m s).1) = update_calls (st_hass s) ++ new.

(** A stage that touches nothing but one flag: every other key of [data]
    (so [host] too) and every other key of [options] is exactly as it was,
    present or absent, and every key [options] had keeps its value, on the
    entry and in the maps each write carries; the identifiers of the entry
    stay as they are. *)
Definition touches_only_flag (key : string) (stage : M State unit) : Prop :=
  ∀ s : State,
    let entry := st_entry s in
    let entry' := st_entry (stage s).1 in
    (∀ k, k ≠ key → data entry' !! k = data entry !! k)
    ∧ data entry' !! "host" = data entry !! "host"
    ∧ (∀ k v, options entry !! k = Some v → options entry' !! k = Some v)
    ∧ (∀ k, k ≠ key → options entry' !! k = options entry !! k)
    ∧ entry_id entry' = entry_id entry
    ∧ unique_id entry' = unique_id entry
    ∧ ∃ new, writes_of stage s new
        ∧ Forall (fun u =>
            (∀ d, upd_data u = Some d →
                  ∀ k, k ≠ key → d !! k = data entry !! k)
            ∧ (∀ o, upd_options u = Some o →
                    (∀ k v, options entry !! k = Some v → o !! k = Some v)
                    ∧ (∀ k, k ≠ key → o !! k = options entry !! k))) new.

(** A stage that touches nothing but the two flags in [options]: [data]
    stays as it is and no write carries a [data] argument; every key of
    [options] other than the two flags is exactly as it was, present or
    absent, and no key [options] had is dropped, on the entry and in the
    map each write carries; the identifiers of the entry stay as they
    are. *)
Definition leaves_data (stage : M State unit) : Prop :=
  ∀ s : State,
    let entry := st_entry s in
    let entry' := st_entry (stage s).1 in
    data entry' = data entry
    ∧ (∀ k, k ≠ CONF_ALLOW_UNREACHABLE → k ≠ CONF_ALLOW_HUE_GROUPS →
            options entry' !! k = options entry !! k)
    ∧ (∀ k, is_Some (options entry !! k) → is_Some (options entry' !! k))
    ∧ entry_id entry' = entry_id entry
    ∧ unique_id entry' = unique_id entry
    ∧ ∃ new, writes_of stage s new
        ∧ Forall (fun u =>
            upd_data u = None
            ∧ upd_unique_id u = None
            ∧ ∃ o, upd_options u = Some o
                   ∧ (∀ k, k ≠ CONF_ALLOW_UNREACHABLE →
                           k ≠ CONF_ALLOW_HUE_GROUPS →
                           o !! k = options entry !! k)
                   ∧ (∀ k, is_Some (options entry !! k) →
                           is_Some (o !! k))) new.

(** ** Auxiliary functions of the proofs *)

(** The effect of one [async_update_entry] on the state. *)
Definition run_update (u : UpdateCall) (s : State) : State :=
  mkState (log_update u (st_hass s)) (apply_update u (st_entry s)).

Definition opt_update (o : option UpdateCall) (s : State) : State :=
  match o with
  | Some u => run_update u s
  | None => s
  end.

(** The write a migration stage issues on an entry, if any. *)
Definition migration_write (key : string) (dflt : bool) (entry : ConfigEntry)
    : option UpdateCall :=
  match options entry !! key, data entry !! key with
  | None, Some v =>
      if py_ne v (VBool dflt)
      then Some (mkUpdateCall None (Some (delete key (data entry)))
                              (Some (<[ key := v ]> (options entry))))
      else None
  | _, _ => None
  end.

(** The options the override stage collects, and the write it issues. *)
Definition override_options (config : BridgeConf) (entry : ConfigEntry)
    : gmap string value :=
  let o1 : gmap string value :=
    match overrides CONF_ALLOW_HUE_GROUPS config entry with
    | Some c => <[ CONF_ALLOW_HUE_GROUPS := c ]> ∅
    | None => ∅
    end in
  match overrides CONF_ALLOW_UNREACHABLE config entry with
  | Some c => <[ CONF_ALLOW_UNREACHABLE := c ]> o1
  | None => o1
  end.

Definition override_write (config : option BridgeConf) (entry : ConfigEntry)
    : option UpdateCall :=
  match config with
  | None => None
  | Some config =>
      let o := override_options config entry in
      if bool_decide (o ≠ ∅)
      then Some (mkUpdateCall None None (Some (o ∪ options entry)))
      else None
  end.

(** The state once the three merge stages have run. *)
Definition merged (config : option BridgeConf) (s : State) : State :=
  let s1 := opt_update
              (migration_write CONF_ALLOW_UNREACHABLE DEFAULT_ALLOW_UNREACHABLE
                               (st_entry s)) s in
  let s2 := opt_update
              (migration_write CONF_ALLOW_HUE_GROUPS DEFAULT_ALLOW_HUE_GROUPS
                               (st_entry s1)) s1 in
  opt_update (override_write config (st_entry s2)) s2.

(** The legacy record [async_setup_entry] finds for the entry. *)
Definition legacy_record (s : State) : option BridgeConf :=
  match data (st_entry s) !! "host" with
  | Some host => configs_get (data_configs (st_hass s)) host
  | None => None
  end.

(** The write that assigns the unique identifier, if the entry has none. *)
Definition unique_id_write (entry : ConfigEntry) : option UpdateCall :=
  match unique_id entry with
  | None =>
      Some (mkUpdateCall
              (Some (normalize_bridge_id (bridgeid (bridge_api_config bridge))))
              None None)
  | Some _ => None
  end.

(** The effect of the firmware advisory on [hass]. *)
Definition advised (config : BridgeConfig) (h : Hass) : Hass :=
  if String.eqb (modelid config) "BSB002"
     && str_lt (swversion config) "1935144040"
  then log_notification security_notification h
  else if String.eqb (swupdate2_bridge_state config) "readytoinstall"
  then log_warning update_warning h
  else h.

(** The state once a bridge whose setup succeeded has been recorded. *)
Definition loaded (s : State) : State :=
  let config := bridge_api_config bridge in
  let s1 := mkState (set_data_domain (insert (entry_id (st_entry s)) bridge)
                                     (st_hass s))
                    (st_entry s) in
  let s2 := opt_update (unique_id_write (st_entry s1)) s1 in
  let device :=
    mkDeviceCall (entry_id (st_entry s))
      [(CONNECTION_NETWORK_MAC, mac config)]
      [(DOMAIN, bridgeid config)]
      "Signify" (name config) (modelid config) (swversion config) in
  mkState (advised config (log_device device (st_hass s2))) (st_entry s2).

(** The requests the loop of [async_setup] schedules. *)
Definition imports (hosts : list value) (bridges : list BridgeConf)
    : list FlowInit :=
  map (fun bc => import_request (conf_host bc))
      (List.filter (fun bc => negb (host_in (conf_host bc) hosts)) bridges).

(** What a merge stage never touches: the two tables and the logs of
    devices, notifications and warnings in [hass], and the identifiers of
    the entry. *)
Definition merge_frame (s s' : State) : Prop :=
  data_domain (st_hass s') = data_domain (st_hass s)
  ∧ data_configs (st_hass s') = data_configs (st_hass s)
  ∧ device_calls (st_hass s') = device_calls (st_hass s)
  ∧ notifications (st_hass s') = notifications (st_hass s)
  ∧ warnings (st_hass s') = warnings (st_hass s)
  ∧ entry_id (st_entry s') = entry_id (st_entry s)
  ∧ unique_id (st_entry s') = unique_id (st_entry s).

(** ** Inputs of the scenarios *)

(** A [hass] with nothing recorded yet. *)
Definition empty_hass : Hass := mkHass ∅ ∅ [] [] [] [] [] [].

(** A bridge that can be set up, with the vulnerable model, a firmware
    below the fixed one and an update ready to install. *)
Definition vulnerable_bridge : HueBridge :=
  mkHueBridge true true
    (mkBridgeConfig "001788fffe123456" "00:17:88:12:34:56" "Philips hue"
                    "BSB002" "1935144030" "readytoinstall").

(** A bridge whose setup fails. *)
Definition unreachable_bridge : HueBridge :=
  mkHueBridge false true
    (mkBridgeConfig "001788fffe123456" "00:17:88:12:34:56" "Philips hue"
                    "BSB002" "1935144030" "readytoinstall").

(** [data = {host: "10.0.0.5", allow_unreachable: true}], [options = {}]. *)
Definition unmigrated_entry : ConfigEntry :=
  mkConfigEntry "entry-1" None
    {[ "host" := VStr "10.0.0.5"; CONF_ALLOW_UNREACHABLE := VBool true ]} ∅.

(** [data = {host: "10.0.0.5", allow_unreachable: false}], the flag at its
    default. *)
Definition default_flag_entry : ConfigEntry :=
  mkConfigEntry "entry-1" None
    {[ "host" := VStr "10.0.0.5"; CONF_ALLOW_UNREACHABLE := VBool false ]} ∅.

(** A fully migrated entry. *)
Definition migrated_entry : ConfigEntry :=
  mkConfigEntry "entry-1" (Some "001788fffe123456")
    {[ "host" := VStr "10.0.0.5" ]}
    {[ CONF_ALLOW_UNREACHABLE := VBool false ]}.

(** A legacy record for the same host with [allow_unreachable: false]. *)
Definition legacy_off : BridgeConf :=
  mkBridgeConf "10.0.0.5" (Some false) None None.

Definition legacy_hass : Hass :=
  mkHass ∅ {[ "10.0.0.5" := legacy_off ]} [] [] [] [] [] [].

(** ** Vocabulary of the further properties *)

(** The last record of a legacy configuration that names a host. *)
Definition last_record (host : string) (bridges : list BridgeConf)
    : option BridgeConf :=
  last (filter (fun bc => conf_host bc = host) bridges).

(** Strings of decimal digits and the number they write, as [int(s)]
    reads them. *)
Definition is_digit (a : ascii) : bool :=
  (48 <=? N_of_ascii a)%N && (N_of_ascii a <=? 57)%N.

Fixpoint all_digits (s : string) : bool :=
  match s with
  | EmptyString => true
  | String a s' => is_digit a && all_digits s'
  end.

Fixpoint decimal_from (acc : N) (s : string) : N :=
  match s with
  | EmptyString => acc
  | String a s' => decimal_from (10 * acc + (N_of_ascii a - 48))%N s'
  end.

Definition decimal (s : string) : N := decimal_from 0 s.

(** The device the reconciler registers for the bridge of an entry. *)
Definition bridge_device (entry : ConfigEntry) : DeviceCall :=
  let config := bridge_api_config bridge in
  mkDeviceCall (entry_id entry)
    [(CONNECTION_NETWORK_MAC, mac config)]
    [(DOMAIN, bridgeid config)]
    "Signify" (name config) (modelid config) (swversion config).

(** The two flags with their documented defaults. *)
Definition is_flag (key : string) (dflt : bool) : Prop :=
  (key = CONF_ALLOW_UNREACHABLE ∧ dflt = DEFAULT_ALLOW_UNREACHABLE)
  ∨ (key = CONF_ALLOW_HUE_GROUPS ∧ dflt = DEFAULT_ALLOW_HUE_GROUPS).

(** A bridge of the vulnerable model that runs the fixed firmware and has
    an update ready to install. *)
Definition updated_bridge : HueBridge :=
  mkHueBridge true true
    (mkBridgeConfig "001788fffe123456" "00:17:88:12:34:56" "Philips hue"
                    "BSB002" "1935144040" "readytoinstall").

(** An entry whose [data] has no host. *)
Definition hostless_entry : ConfigEntry :=
  mkConfigEntry "entry-2" None {[ CONF_ALLOW_UNREACHABLE := VBool true ]} ∅.

(** A legacy record for the same host with [allow_unreachable: true]. *)
Definition legacy_on : BridgeConf :=
  mkBridgeConf "10.0.0.5" (Some true) None None.

(** A [hass] that still holds a bridge and a legacy record. *)
Definition stale_hass : Hass :=
  mkHass {[ "entry-1" := unreachable_bridge ]} {[ "10.0.0.5" := legacy_off ]}
         [] [] [] [] [] [].

(** ** The comparisons on examples *)

Example py_eq_bool_int : py_eq (VBool true) (VInt 1) = true.
Proof. reflexivity. Qed.

Example py_eq_bool_str : py_eq (VBool true) (VStr "True") = false.
Proof. reflexivity. Qed.

Example str_lt_older_firmware : str_lt "1935144030" "1935144040" = true.
Proof. reflexivity. Qed.

Example str_lt_fixed_firmware : str_lt "1935144040" "1935144040" = false.
Proof. reflexivity. Qed.

Example str_lt_by_code_point : str_lt "2" "1935144040" = false.
Proof. reflexivity. Qed.

(** ** Running the stages *)

Lemma bind_run {S A B} (m : M S A) (k : A → M S B) (s : S) :
  (m ≫= k) s
  = match m s with
    | (s', Return a) => k a s'
    | (s', Raise e) => (s', Raise e)
    end.
Proof. reflexivity. Qed.

Lemma async_update_entry_run (u : UpdateCall) (s : State) :
  async_update_entry u s = (run_update u s, Return tt).
Proof. reflexivity. Qed.

Lemma migrate_allow_unreachable_run (s : State) :
  migrate_allow_unreachable s
  = (opt_update (migration_write CONF_ALLOW_UNREACHABLE
                   DEFAULT_ALLOW_UNREACHABLE (st_entry s)) s, Return tt).
Proof.
  unfold migrate_allow_unreachable, migration_write.
  rewrite bind_run. cbn [get_entry].
  destruct (options (st_entry s) !! CONF_ALLOW_UNREACHABLE); [reflexivity|].
  destruct (data (st_entry s) !! CONF_ALLOW_UNREACHABLE) as [v|]; [|reflexivity].
  destruct (py_ne v (VBool DEFAULT_ALLOW_UNREACHABLE)); reflexivity.
Qed.

Lemma migrate_allow_hue_groups_run (s : State) :
  migrate_allow_hue_groups s
  = (opt_update (migration_write CONF_ALLOW_HUE_GROUPS
                   DEFAULT_ALLOW_HUE_GROUPS (st_entry s)) s, Return tt).
Proof.
  unfold migrate_allow_hue_groups, migration_write.
  rewrite bind_run. cbn [get_entry].
  destruct (options (st_entry s) !! CONF_ALLOW_HUE_GROUPS); [reflexivity|].
  destruct (data (st_entry s) !! CONF_ALLOW_HUE_GROUPS) as [v|]; [|reflexivity].
  destruct (py_ne v (VBool DEFAULT_ALLOW_HUE_GROUPS)); reflexivity.
Qed.

Lemma overwrite_from_yaml_run (config : option BridgeConf) (s : State) :
  overwrite_from_yaml config s
  = (opt_update (override_write config (st_entry s)) s, Return tt).
Proof.
  destruct config as [config|]; [|reflexivity].
  unfold overwrite_from_yaml, override_write, override_options.
  rewrite bind_run. cbn [get_entry]. cbv zeta.
  case_bool_decide; reflexivity.
Qed.

Lemma firmware_advisory_run (config : BridgeConfig) (s : State) :
  firmware_advisory config s
  = (mkState (advised config (st_hass s)) (st_entry s), Return tt).
Proof.
  unfold firmware_advisory, advised.
  destruct (String.eqb (modelid config) "BSB002"
            && str_lt (swversion config) "1935144040"); [reflexivity|].
  destruct (String.eqb (swupdate2_bridge_state config) "readytoinstall");
    [reflexivity|].
  destruct s; reflexivity.
Qed.

Lemma entry_id_opt_update (o : option UpdateCall) (s : State) :
  entry_id (st_entry (opt_update o s)) = entry_id (st_entry s).
Proof. destruct o; reflexivity. Qed.

Lemma entry_id_merged (config : option BridgeConf) (s : State) :
  entry_id (st_entry (merged config s)) = entry_id (st_entry s).
Proof. unfold merged. rewrite !entry_id_opt_update. reflexivity. Qed.

(** [async_setup_entry], stage by stage. *)
Lemma async_setup_entry_run (s : State) :
  async_setup_entry s
  = match data (st_entry s) !! "host" with
    | None => (s, Raise (KeyError "host"))
    | Some _ =>
        let s3 := merged (legacy_record s) s in
        if bridge_async_setup bridge
        then (loaded s3, Return true)
        else (s3, Return false)
    end.
Proof.
  unfold async_setup_entry, legacy_record.
  rewrite bind_run. cbn [get_entry].
  rewrite bind_run. cbn [get_hass].
  rewrite bind_run. unfold getitem.
  destruct (data (st_entry s) !! "host") as [host|]; [|reflexivity].
  cbn [mret M_ret].
  rewrite bind_run, migrate_allow_unreachable_run.
  rewrite bind_run, migrate_allow_hue_groups_run.
  rewrite bind_run, overwrite_from_yaml_run.
  fold (merged (configs_get (data_configs (st_hass s)) host) s).
  set (s3 := merged _ s).
  assert (Hid : entry_id (st_entry s3) = entry_id (st_entry s))
    by apply entry_id_merged.
  destruct (bridge_async_setup bridge); [|reflexivity].
  cbn [negb].
  rewrite bind_run. cbn [on_hass modify].
  rewrite bind_run. cbn [get_entry st_entry].
  rewrite bind_run.
  unfold loaded, unique_id_write. cbn [st_entry st_hass]. rewrite Hid.
  destruct (unique_id (st_entry s3)).
  - cbn [mret M_ret opt_update]. rewrite bind_run. cbn [on_hass modify st_entry st_hass].
    rewrite bind_run, firmware_advisory_run. reflexivity.
  - rewrite async_update_entry_run. rewrite bind_run.
    cbn [on_hass modify st_entry st_hass].
    rewrite bind_run, firmware_advisory_run. reflexivity.
Qed.

(** ** The rules, decided *)

Lemma flag_keys_differ : CONF_ALLOW_UNREACHABLE ≠ CONF_ALLOW_HUE_GROUPS.
Proof. discriminate. Qed.

Lemma migration_write_due key dflt entry :
  migration_due key dflt entry →
  ∃ v, data entry !! key = Some v
       ∧ migration_write key dflt entry
         = Some (mkUpdateCall None (Some (delete key (data entry)))
                              (Some (<[ key := v ]> (options entry)))).
Proof.
  intros (v & Hd & Ho & Hne). exists v. split; [exact Hd|].
  unfold migration_write. rewrite Ho, Hd, Hne. reflexivity.
Qed.

Lemma migration_write_not_due key dflt entry :
  ¬ migration_due key dflt entry → migration_write key dflt entry = None.
Proof.
  intros Hn. unfold migration_write.
  destruct (options entry !! key) eqn:Ho; [reflexivity|].
  destruct (data entry !! key) as [v|] eqn:Hd; [|reflexivity].
  destruct (py_ne v (VBool dflt)) eqn:Hne; [|reflexivity].
  exfalso. apply Hn. exists v. auto.
Qed.

Lemma migration_due_dec key dflt entry :
  migration_due key dflt entry ∨ ¬ migration_due key dflt entry.
Proof.
  destruct (migration_write key dflt entry) eqn:Hw.
  - left. unfold migration_write in Hw.
    destruct (options entry !! key) eqn:Ho; [discriminate|].
    destruct (data entry !! key) as [v|] eqn:Hd; [|discriminate].
    destruct (py_ne v (VBool dflt)) eqn:Hne; [|discriminate].
    exists v. auto.
  - right. intros Hdue. apply migration_write_due in Hdue as (v & _ & Hw').
    congruence.
Qed.

Lemma moves_flag_intro key dflt (stage : M State unit) :
  (∀ s, stage s = (opt_update (migration_write key dflt (st_entry s)) s,
                   Return tt)) →
  moves_flag key dflt stage.
Proof.
  intros Hrun s. rewrite Hrun. cbn [fst snd].
  split; [reflexivity|]. split.
  - intros Hdue. destruct (migration_write_due _ _ _ Hdue) as (v & Hd & Hw).
    exists v. rewrite Hw. cbn. auto.
  - intros Hn. rewrite (migration_write_not_due _ _ _ Hn). reflexivity.
Qed.

(** A migration of one flag does not decide the migration of another. *)
Lemma migration_due_other key dflt key' dflt' s :
  key ≠ key' →
  migration_due key' dflt'
    (st_entry (opt_update (migration_write key dflt (st_entry s)) s))
  ↔ migration_due key' dflt' (st_entry s).
Proof.
  intros Hne. unfold migration_write. set (entry := st_entry s).
  destruct (options entry !! key) eqn:Ho; [reflexivity|].
  destruct (data entry !! key) as [v|] eqn:Hd; [|reflexivity].
  destruct (py_ne v (VBool dflt)) eqn:Hv; [|reflexivity].
  unfold migration_due. cbn.
  rewrite lookup_delete_ne, lookup_insert_ne by exact Hne. reflexivity.
Qed.

Lemma overrides_differs key config entry :
  legacy_differs key config entry →
  overrides key config entry = conf_get key config
  ∧ is_Some (conf_get key config).
Proof.
  intros (c & Hc & Ho). unfold overrides. rewrite Hc. split; [|eauto].
  destruct Ho as [Ho | (o & Ho & Hne)]; rewrite Ho; [reflexivity|].
  rewrite Hne. reflexivity.
Qed.

Lemma overrides_same key config entry :
  ¬ legacy_differs key config entry → overrides key config entry = None.
Proof.
  intros Hn. unfold overrides.
  destruct (conf_get key config) as [c|] eqn:Hc; [|reflexivity].
  destruct (options entry !! key) as [o|] eqn:Ho.
  - destruct (py_ne c o) eqn:Hne; [|reflexivity].
    exfalso. apply Hn. exists c. split; [exact Hc|]. right. eauto.
  - exfalso. apply Hn. exists c. auto.
Qed.

Lemma override_options_lookup_unreachable config entry :
  override_options config entry !! CONF_ALLOW_UNREACHABLE
  = overrides CONF_ALLOW_UNREACHABLE config entry.
Proof.
  unfold override_options.
  destruct (overrides CONF_ALLOW_UNREACHABLE config entry).
  - apply lookup_insert_eq.
  - destruct (overrides CONF_ALLOW_HUE_GROUPS config entry).
    + rewrite lookup_insert_ne by (symmetry; exact flag_keys_differ).
      apply lookup_empty.
    + apply lookup_empty.
Qed.

Lemma override_options_lookup_hue_groups config entry :
  override_options config entry !! CONF_ALLOW_HUE_GROUPS
  = overrides CONF_ALLOW_HUE_GROUPS config entry.
Proof.
  unfold override_options.
  destruct (overrides CONF_ALLOW_UNREACHABLE config entry).
  - rewrite lookup_insert_ne by exact flag_keys_differ.
    destruct (overrides CONF_ALLOW_HUE_GROUPS config entry).
    + apply lookup_insert_eq.
    + apply lookup_empty.
  - destruct (overrides CONF_ALLOW_HUE_GROUPS config entry).
    + apply lookup_insert_eq.
    + apply lookup_empty.
Qed.

Lemma override_options_lookup_other config entry key :
  key ≠ CONF_ALLOW_UNREACHABLE → key ≠ CONF_ALLOW_HUE_GROUPS →
  override_options config entry !! key = None.
Proof.
  intros H1 H2. unfold override_options.
  destruct (overrides CONF_ALLOW_UNREACHABLE config entry);
    destruct (overrides CONF_ALLOW_HUE_GROUPS config entry);
    rewrite ?lookup_insert_ne by congruence; apply lookup_empty.
Qed.

Lemma override_options_empty config entry :
  override_options config entry = ∅
  ↔ overrides CONF_ALLOW_UNREACHABLE config entry = None
    ∧ overrides CONF_ALLOW_HUE_GROUPS config entry = None.
Proof.
  split.
  - intros He.
    rewrite <- override_options_lookup_unreachable,
            <- override_options_lookup_hue_groups, He.
    split; apply lookup_empty.
  - intros [H1 H2]. unfold override_options. rewrite H1, H2. reflexivity.
Qed.

(** The options after the override stage, key by key. *)
Lemma override_write_lookup config s key :
  options (st_entry (opt_update (override_write (Some config) (st_entry s))
                                s)) !! key
  = match override_options config (st_entry s) !! key with
    | Some c => Some c
    | None => options (st_entry s) !! key
    end.
Proof.
  unfold override_write. set (entry := st_entry s).
  case_bool_decide as He.
  - cbn. rewrite lookup_union.
    destruct (override_options config entry !! key);
      destruct (options entry !! key); reflexivity.
  - rewrite He, lookup_empty. reflexivity.
Qed.

Lemma touches_only_flag_intro key dflt (stage : M State unit) :
  key ≠ "host" →
  (∀ s, stage s = (opt_update (migration_write key dflt (st_entry s)) s,
                   Return tt)) →
  touches_only_flag key stage.
Proof.
  intros Hhost Hrun s. unfold writes_of. rewrite Hrun. cbn [fst].
  destruct (migration_due_dec key dflt (st_entry s)) as [Hdue | Hn].
  - destruct Hdue as (v' & Hd' & Ho & Hv).
    destruct (migration_write_due key dflt (st_entry s)) as (v & Hd & Hw);
      [exists v'; auto|].
    rewrite Hw. cbn.
    assert (Hkeep : ∀ k w, options (st_entry s) !! k = Some w →
                           <[key:=v]> (options (st_entry s)) !! k = Some w).
    { intros k w Hk. rewrite lookup_insert_ne; [exact Hk|]. congruence. }
    assert (Hother : ∀ k, k ≠ key →
                          <[key:=v]> (options (st_entry s)) !! k
                          = options (st_entry s) !! k).
    { intros k Hk. apply lookup_insert_ne. congruence. }
    split; [|split; [|split; [|split; [|split; [|split]]]]].
    + intros k Hk. apply lookup_delete_ne. congruence.
    + apply lookup_delete_ne. exact Hhost.
    + exact Hkeep.
    + exact Hother.
    + reflexivity.
    + reflexivity.
    + eexists. split; [reflexivity|].
      constructor; [|constructor]. cbn. split.
      * intros d [= <-] k Hk. apply lookup_delete_ne. congruence.
      * intros o [= <-]. split; [exact Hkeep | exact Hother].
  - rewrite (migration_write_not_due _ _ _ Hn). cbn.
    split; [|split; [|split; [|split; [|split; [|split]]]]]; auto.
    exists []. rewrite app_nil_r. split; [reflexivity | constructor].
Qed.

Lemma override_union_other config entry k :
  k ≠ CONF_ALLOW_UNREACHABLE → k ≠ CONF_ALLOW_HUE_GROUPS →
  (override_options config entry ∪ options entry) !! k = options entry !! k.
Proof.
  intros Hu Hg.
  rewrite lookup_union, override_options_lookup_other by assumption.
  destruct (options entry !! k); reflexivity.
Qed.

Lemma override_union_mono config entry k :
  is_Some (options entry !! k) →
  is_Some ((override_options config entry ∪ options entry) !! k).
Proof.
  intros [v Hv]. rewrite lookup_union, Hv.
  destruct (override_options config entry !! k); eauto.
Qed.

Lemma overwrite_from_yaml_leaves_data config :
  leaves_data (overwrite_from_yaml config).
Proof.
  intros s. cbv zeta. unfold writes_of. rewrite overwrite_from_yaml_run.
  cbn [fst].
  destruct config as [c|]; cbn [override_write].
  - case_bool_decide as He; cbn.
    + split; [reflexivity|].
      split; [intros k Hu Hg; apply override_union_other; assumption|].
      split; [intros k Hk; apply override_union_mono; exact Hk|].
      split; [reflexivity|]. split; [reflexivity|].
      eexists. split; [reflexivity|].
      constructor; [|constructor]. cbn.
      split; [reflexivity|]. split; [reflexivity|].
      eexists. split; [reflexivity|]. split.
      * intros k Hu Hg. apply override_union_other; assumption.
      * intros k Hk. apply override_union_mono. exact Hk.
    + split; [reflexivity|]. split; [auto|]. split; [auto|].
      split; [reflexivity|]. split; [reflexivity|].
      exists []. rewrite app_nil_r. split; [reflexivity | constructor].
  - cbn. split; [reflexivity|]. split; [auto|]. split; [auto|].
    split; [reflexivity|]. split; [reflexivity|].
    exists []. rewrite app_nil_r. split; [reflexivity | constructor].
Qed.

(** ** The merge stages *)

(** C2: each of the two flag migrations fires exactly when its flag is
    present in [entry.data], absent from [entry.options] and differs from
    the documented default; when it fires the value is copied into
    [options], the key is removed from [data] and exactly one write is
    issued, and when it does not fire nothing changes.  The migration of
    [allow_unreachable], which runs first, does not change whether the one
    of [allow_hue_groups] is due. *)
Theorem flag_migration_rule :
  moves_flag CONF_ALLOW_UNREACHABLE DEFAULT_ALLOW_UNREACHABLE
             migrate_allow_unreachable
  ∧ moves_flag CONF_ALLOW_HUE_GROUPS DEFAULT_ALLOW_HUE_GROUPS
               migrate_allow_hue_groups
  ∧ ∀ s : State,
      migration_due CONF_ALLOW_HUE_GROUPS DEFAULT_ALLOW_HUE_GROUPS
                    (st_entry (migrate_allow_unreachable s).1)
      ↔ migration_due CONF_ALLOW_HUE_GROUPS DEFAULT_ALLOW_HUE_GROUPS
                      (st_entry s).
Proof.
  split; [|split].
  - apply moves_flag_intro, migrate_allow_unreachable_run.
  - apply moves_flag_intro, migrate_allow_hue_groups_run.
  - intros s. rewrite migrate_allow_unreachable_run. cbn [fst].
    apply migration_due_other, flag_keys_differ.
Qed.

(** C3: with a legacy record for the entry's host, the override stage
    sets each of the two flags in [options] to the legacy value exactly
    when the record holds the flag and [options] lacks it or holds a
    different value, and leaves the flag as it is otherwise; no other key
    of [options] changes; it issues one combined write if at least one
    flag changed and none otherwise. *)
Theorem legacy_override_rule (config : BridgeConf) (s : State) :
  let s' := (overwrite_from_yaml (Some config) s).1 in
  let changed :=
    legacy_differs CONF_ALLOW_UNREACHABLE config (st_entry s)
    ∨ legacy_differs CONF_ALLOW_HUE_GROUPS config (st_entry s) in
  (∀ key, key = CONF_ALLOW_UNREACHABLE ∨ key = CONF_ALLOW_HUE_GROUPS →
     (legacy_differs key config (st_entry s) →
      is_Some (conf_get key config)
      ∧ options (st_entry s') !! key = conf_get key config)
     ∧ (¬ legacy_differs key config (st_entry s) →
        options (st_entry s') !! key = options (st_entry s) !! key))
  ∧ (∀ key, key ≠ CONF_ALLOW_UNREACHABLE → key ≠ CONF_ALLOW_HUE_GROUPS →
       options (st_entry s') !! key = options (st_entry s) !! key)
  ∧ (changed →
     update_calls (st_hass s')
     = update_calls (st_hass s)
         ++ [mkUpdateCall None None (Some (options (st_entry s')))])
  ∧ (¬ changed → s' = s).
Proof.
  cbv zeta. rewrite overwrite_from_yaml_run. cbn [fst].
  split; [|split; [|split]].
  - intros key Hkey. rewrite override_write_lookup.
    assert (Hlk : override_options config (st_entry s) !! key
                  = overrides key config (st_entry s)).
    { destruct Hkey as [-> | ->];
        [apply override_options_lookup_unreachable
        |apply override_options_lookup_hue_groups]. }
    rewrite Hlk. split.
    + intros Hd. apply overrides_differs in Hd as [Hov [c Hc]].
      rewrite Hov, Hc. eauto.
    + intros Hn. rewrite (overrides_same _ _ _ Hn). reflexivity.
  - intros key Hu Hg.
    rewrite override_write_lookup, override_options_lookup_other by assumption.
    reflexivity.
  - intros Hch. unfold override_write.
    case_bool_decide as He; [reflexivity|].
    apply override_options_empty in He as [H1 H2].
    destruct Hch as [Hd | Hd]; apply overrides_differs in Hd as [Hov [c Hc]];
      congruence.
  - intros Hn. unfold override_write.
    case_bool_decide as He; [|reflexivity].
    exfalso. apply He, override_options_empty. split.
    + apply overrides_same. intros Hd. apply Hn. left. exact Hd.
    + apply overrides_same. intros Hd. apply Hn. right. exact Hd.
Qed.

(** C10: each merge stage touches only its own flag and region.  A flag
    migration leaves every key of [data] and of [options] other than its
    flag exactly as it was (so [host] stays, no other option is added,
    changed or dropped) and keeps every key [options] already had, on the
    entry and in the maps its write carries.  The override stage leaves
    [data] as it is and every key of [options] other than the two flags
    exactly as it was, drops no key of [options], and its write carries
    [options] only, with those same keys.  No stage touches the
    identifiers of the entry. *)
Theorem merge_stages_frame (config : option BridgeConf) :
  touches_only_flag CONF_ALLOW_UNREACHABLE migrate_allow_unreachable
  ∧ touches_only_flag CONF_ALLOW_HUE_GROUPS migrate_allow_hue_groups
  ∧ leaves_data (overwrite_from_yaml config).
Proof.
  split; [|split].
  - apply (touches_only_flag_intro _ DEFAULT_ALLOW_UNREACHABLE);
      [discriminate | apply migrate_allow_unreachable_run].
  - apply (touches_only_flag_intro _ DEFAULT_ALLOW_HUE_GROUPS);
      [discriminate | apply migrate_allow_hue_groups_run].
  - apply overwrite_from_yaml_leaves_data.
Qed.

(** ** The merge as a whole *)

Lemma merge_frame_refl s : merge_frame s s.
Proof. repeat split. Qed.

Lemma merge_frame_trans s1 s2 s3 :
  merge_frame s1 s2 → merge_frame s2 s3 → merge_frame s1 s3.
Proof.
  unfold merge_frame. intros H12 H23.
  destruct H12 as (?&?&?&?&?&?&?), H23 as (?&?&?&?&?&?&?).
  repeat split; congruence.
Qed.

Lemma merge_frame_opt_update o s :
  (∀ u, o = Some u → upd_unique_id u = None) →
  merge_frame s (opt_update o s).
Proof.
  intros Hu. destruct o as [u|]; [|apply merge_frame_refl].
  specialize (Hu u eq_refl). repeat split. cbn. rewrite Hu. reflexivity.
Qed.

Lemma migration_write_unique_id key dflt entry u :
  migration_write key dflt entry = Some u → upd_unique_id u = None.
Proof.
  unfold migration_write. intros Hw.
  repeat case_match; try discriminate. injection Hw as <-. reflexivity.
Qed.

Lemma override_write_unique_id config entry u :
  override_write config entry = Some u → upd_unique_id u = None.
Proof.
  unfold override_write. intros Hw.
  repeat case_match; try discriminate. injection Hw as <-. reflexivity.
Qed.

Lemma merge_frame_merged config s : merge_frame s (merged config s).
Proof.
  unfold merged.
  eapply merge_frame_trans; [eapply merge_frame_trans|].
  - apply merge_frame_opt_update, migration_write_unique_id.
  - apply merge_frame_opt_update, migration_write_unique_id.
  - apply merge_frame_opt_update, override_write_unique_id.
Qed.

Lemma legacy_record_Some s config :
  legacy_record s = Some config →
  ∃ h, data (st_entry s) !! "host" = Some (VStr h)
       ∧ data_configs (st_hass s) !! h = Some config.
Proof.
  unfold legacy_record, configs_get. intros Hr.
  destruct (data (st_entry s) !! "host") as [[| | |h]|]; try discriminate.
  eauto.
Qed.

Lemma legacy_record_lookup s h :
  data (st_entry s) !! "host" = Some (VStr h) →
  legacy_record s = data_configs (st_hass s) !! h.
Proof. unfold legacy_record. intros ->. reflexivity. Qed.

(** The entry after the two migrations, key by key. *)
Lemma migrated_data key dflt s k :
  data (st_entry (opt_update (migration_write key dflt (st_entry s)) s)) !! k
  = match migration_write key dflt (st_entry s) with
    | Some _ => if decide (key = k) then None else data (st_entry s) !! k
    | None => data (st_entry s) !! k
    end.
Proof.
  set (entry := st_entry s).
  destruct (migration_write key dflt entry) as [u|] eqn:Hw; [|reflexivity].
  unfold migration_write in Hw.
  repeat case_match; try discriminate; injection Hw as <-; cbn;
    solve [ subst; apply lookup_delete_eq
          | apply lookup_delete_ne; assumption ].
Qed.

Lemma migrated_options key dflt s k :
  options (st_entry (opt_update (migration_write key dflt (st_entry s)) s))
    !! k
  = match migration_write key dflt (st_entry s) with
    | Some _ => if decide (key = k) then data (st_entry s) !! k
                else options (st_entry s) !! k
    | None => options (st_entry s) !! k
    end.
Proof.
  set (entry := st_entry s).
  destruct (migration_write key dflt entry) as [u|] eqn:Hw; [|reflexivity].
  unfold migration_write in Hw.
  repeat case_match; try discriminate; injection Hw as <-; cbn.
  - subst. rewrite lookup_insert_eq. congruence.
  - apply lookup_insert_ne. assumption.
Qed.

Lemma override_keeps_data config s :
  data (st_entry (opt_update (override_write config (st_entry s)) s))
  = data (st_entry s).
Proof.
  set (entry := st_entry s).
  destruct (override_write config entry) as [u|] eqn:Hw; [|reflexivity].
  unfold override_write in Hw.
  repeat case_match; try discriminate. injection Hw as <-. reflexivity.
Qed.

Lemma loaded_entry_maps s :
  data (st_entry (loaded s)) = data (st_entry s)
  ∧ options (st_entry (loaded s)) = options (st_entry s).
Proof.
  unfold loaded, unique_id_write. cbn [st_entry st_hass].
  destruct (unique_id (st_entry s)); split; reflexivity.
Qed.

Lemma migrated_data_ne key dflt s k :
  key ≠ k →
  data (st_entry (opt_update (migration_write key dflt (st_entry s)) s)) !! k
  = data (st_entry s) !! k.
Proof.
  intros Hne. rewrite migrated_data.
  destruct (migration_write _ _ _); [|reflexivity].
  rewrite decide_False; [reflexivity | exact Hne].
Qed.

Lemma migrated_options_ne key dflt s k :
  key ≠ k →
  options (st_entry (opt_update (migration_write key dflt (st_entry s)) s))
    !! k
  = options (st_entry s) !! k.
Proof.
  intros Hne. rewrite migrated_options.
  destruct (migration_write _ _ _); [|reflexivity].
  rewrite decide_False; [reflexivity | exact Hne].
Qed.

Lemma merged_data_unreachable config s :
  data (st_entry (merged config s)) !! CONF_ALLOW_UNREACHABLE
  = match migration_write CONF_ALLOW_UNREACHABLE DEFAULT_ALLOW_UNREACHABLE
                          (st_entry s) with
    | Some _ => None
    | None => data (st_entry s) !! CONF_ALLOW_UNREACHABLE
    end.
Proof.
  unfold merged. rewrite override_keeps_data.
  rewrite migrated_data_ne by (symmetry; exact flag_keys_differ).
  rewrite migrated_data.
  destruct (migration_write _ _ (st_entry s)); [|reflexivity].
  rewrite decide_True; reflexivity.
Qed.

Lemma merged_data_hue_groups config s :
  (migration_due CONF_ALLOW_HUE_GROUPS DEFAULT_ALLOW_HUE_GROUPS (st_entry s) →
   data (st_entry (merged config s)) !! CONF_ALLOW_HUE_GROUPS = None)
  ∧ (¬ migration_due CONF_ALLOW_HUE_GROUPS DEFAULT_ALLOW_HUE_GROUPS
         (st_entry s) →
     data (st_entry (merged config s)) !! CONF_ALLOW_HUE_GROUPS
     = data (st_entry s) !! CONF_ALLOW_HUE_GROUPS).
Proof.
  unfold merged. rewrite override_keeps_data, migrated_data.
  set (s1 := opt_update (migration_write CONF_ALLOW_UNREACHABLE _ _) s).
  assert (Hdue : migration_due CONF_ALLOW_HUE_GROUPS DEFAULT_ALLOW_HUE_GROUPS
                               (st_entry s1)
                 ↔ migration_due CONF_ALLOW_HUE_GROUPS
                      DEFAULT_ALLOW_HUE_GROUPS (st_entry s))
    by apply migration_due_other, flag_keys_differ.
  assert (Hd1 : data (st_entry s1) !! CONF_ALLOW_HUE_GROUPS
                = data (st_entry s) !! CONF_ALLOW_HUE_GROUPS).
  { apply migrated_data_ne, flag_keys_differ. }
  split.
  - intros Hd. apply Hdue in Hd.
    destruct (migration_write_due _ _ _ Hd) as (v & _ & Hw). rewrite Hw.
    rewrite decide_True; reflexivity.
  - intros Hn. rewrite migration_write_not_due; [exact Hd1|].
    rewrite Hdue. exact Hn.
Qed.

(** C5, as the code has it: once the merge has run, [entry.data] no
    longer holds a flag whose migration was due (present in [data], absent
    from [options], differing from the default); a flag whose migration
    was not due is in [data] exactly as it was before. *)
Theorem data_after_merge (s : State) :
  is_Some (data (st_entry s) !! "host") →
  let entry := st_entry s in
  let entry' := st_entry (async_setup_entry s).1 in
  ∀ key dflt,
    (key = CONF_ALLOW_UNREACHABLE ∧ dflt = DEFAULT_ALLOW_UNREACHABLE)
    ∨ (key = CONF_ALLOW_HUE_GROUPS ∧ dflt = DEFAULT_ALLOW_HUE_GROUPS) →
    (migration_due key dflt entry → data entry' !! key = None)
    ∧ (¬ migration_due key dflt entry →
       data entry' !! key = data entry !! key).
Proof.
  intros [host Hhost]. cbv zeta. intros key dflt Hkey.
  rewrite async_setup_entry_run, Hhost. cbv zeta.
  assert (Hd : data (st_entry (if bridge_async_setup bridge
                               then (loaded (merged (legacy_record s) s),
                                     Return true)
                               else (merged (legacy_record s) s,
                                     Return false)).1)
               = data (st_entry (merged (legacy_record s) s))).
  { destruct (bridge_async_setup bridge); [|reflexivity].
    apply loaded_entry_maps. }
  rewrite Hd.
  destruct Hkey as [[-> ->] | [-> ->]].
  - rewrite merged_data_unreachable. split.
    + intros Hdue. destruct (migration_write_due _ _ _ Hdue) as (v & _ & Hw).
      rewrite Hw. reflexivity.
    + intros Hn. rewrite (migration_write_not_due _ _ _ Hn). reflexivity.
  - apply merged_data_hue_groups.
Qed.

(** [==] against [False]: only [False] and [0] pass. *)
Lemma py_eq_false (o : value) :
  py_eq (VBool false) o = true → o = VBool false ∨ o = VInt 0.
Proof.
  destruct o as [|[]|z|]; unfold py_eq, as_int; try discriminate; auto.
  intros Hz. right. f_equal. symmetry. apply Z.eqb_eq. exact Hz.
Qed.

Lemma py_eq_sym (a b : value) : py_eq a b = py_eq b a.
Proof.
  destruct a as [|[]|x|x], b as [|[]|y|y]; unfold py_eq, as_int;
    try reflexivity; try apply Z.eqb_sym.
  apply String.eqb_sym.
Qed.

(** The flag [allow_unreachable] in [options] after the two migrations. *)
Lemma migrated_options_unreachable s :
  let s1 := opt_update
              (migration_write CONF_ALLOW_UNREACHABLE DEFAULT_ALLOW_UNREACHABLE
                               (st_entry s)) s in
  let s2 := opt_update
              (migration_write CONF_ALLOW_HUE_GROUPS DEFAULT_ALLOW_HUE_GROUPS
                               (st_entry s1)) s1 in
  options (st_entry s2) !! CONF_ALLOW_UNREACHABLE
  = match migration_write CONF_ALLOW_UNREACHABLE DEFAULT_ALLOW_UNREACHABLE
                          (st_entry s) with
    | Some _ => data (st_entry s) !! CONF_ALLOW_UNREACHABLE
    | None => options (st_entry s) !! CONF_ALLOW_UNREACHABLE
    end.
Proof.
  cbv zeta.
  rewrite migrated_options_ne by (symmetry; exact flag_keys_differ).
  rewrite migrated_options.
  destruct (migration_write _ _ (st_entry s)); [|reflexivity].
  rewrite decide_True; reflexivity.
Qed.

(** C1: when [data] holds [allow_unreachable = true] and the legacy
    record of the entry's host holds [allow_unreachable = false], the
    final [options.allow_unreachable] equals [False] whatever the default
    and the initial options are: it is [False] itself unless [options]
    already held the equal value [0].  With the default [false] and the
    flag absent from [options], stage 1 had moved [true] into [options]
    before the override replaced it. *)
Theorem legacy_override_wins (s : State) (h : string) (config : BridgeConf) :
  data (st_entry s) !! "host" = Some (VStr h) →
  data_configs (st_hass s) !! h = Some config →
  conf_allow_unreachable config = Some false →
  data (st_entry s) !! CONF_ALLOW_UNREACHABLE = Some (VBool true) →
  (∃ v, options (st_entry (async_setup_entry s).1) !! CONF_ALLOW_UNREACHABLE
        = Some v
        ∧ py_eq v (VBool false) = true
        ∧ (options (st_entry s) !! CONF_ALLOW_UNREACHABLE ≠ Some (VInt 0) →
           v = VBool false))
  ∧ (DEFAULT_ALLOW_UNREACHABLE = false →
     options (st_entry s) !! CONF_ALLOW_UNREACHABLE = None →
     options (st_entry (migrate_allow_unreachable s).1)
       !! CONF_ALLOW_UNREACHABLE = Some (VBool true)).
Proof.
  intros Hhost Hconf Hlegacy Hdata. split.
  - rewrite async_setup_entry_run, Hhost. cbv zeta.
    rewrite (legacy_record_lookup _ _ Hhost), Hconf.
    assert (Ho : ∀ b : bool,
              options (st_entry (if b
                                 then (loaded (merged (Some config) s),
                                       Return true)
                                 else (merged (Some config) s,
                                       Return false)).1)
              = options (st_entry (merged (Some config) s))).
    { intros []; [apply loaded_entry_maps | reflexivity]. }
    rewrite Ho. unfold merged.
    rewrite override_write_lookup, override_options_lookup_unreachable.
    unfold overrides.
    assert (Hc : conf_get CONF_ALLOW_UNREACHABLE config = Some (VBool false)).
    { unfold conf_get. cbn. rewrite Hlegacy. reflexivity. }
    rewrite Hc, migrated_options_unreachable.
    destruct (migration_write CONF_ALLOW_UNREACHABLE DEFAULT_ALLOW_UNREACHABLE
                              (st_entry s)) as [u|] eqn:Hw.
    + rewrite Hdata. cbn. eauto.
    + destruct (options (st_entry s) !! CONF_ALLOW_UNREACHABLE) as [o|] eqn:Hopt.
      * destruct (py_ne (VBool false) o) eqn:Hne.
        -- exists (VBool false). auto.
        -- exists o. unfold py_ne in Hne. apply negb_false_iff in Hne.
           split; [reflexivity|]. split.
           ++ rewrite py_eq_sym. exact Hne.
           ++ intros Hnz. destruct (py_eq_false o Hne) as [-> | ->];
                [reflexivity | congruence].
      * exists (VBool false). auto.
  - intros Hdflt Hopt. rewrite migrate_allow_unreachable_run. cbn [fst].
    rewrite migrated_options. unfold migration_write.
    rewrite Hopt, Hdata, Hdflt. cbn.
    rewrite decide_True; reflexivity.
Qed.

(** ** Writes of a second run *)

Lemma legacy_matches_not_differs key config entry :
  legacy_matches key config entry → ¬ legacy_differs key config entry.
Proof.
  intros Hm (c & Hc & Hd). destruct (Hm c Hc) as (o & Ho & Heq).
  destruct Hd as [Hd | (o' & Ho' & Hne)]; [congruence|].
  unfold py_ne in Hne. rewrite Ho in Ho'. injection Ho' as <-.
  rewrite Heq in Hne. discriminate.
Qed.

Lemma migration_write_absent key dflt entry :
  data entry !! key = None → migration_write key dflt entry = None.
Proof.
  intros Hd. unfold migration_write. rewrite Hd.
  destruct (options entry !! key); reflexivity.
Qed.

Lemma override_write_matches config entry :
  (∀ c, config = Some c →
        legacy_matches CONF_ALLOW_UNREACHABLE c entry
        ∧ legacy_matches CONF_ALLOW_HUE_GROUPS c entry) →
  override_write config entry = None.
Proof.
  intros Hm. destruct config as [c|]; [|reflexivity].
  destruct (Hm c eq_refl) as [Hu Hg]. unfold override_write.
  case_bool_decide as He; [|reflexivity].
  exfalso. apply He, override_options_empty.
  split; apply overrides_same, legacy_matches_not_differs; assumption.
Qed.

(** A run on an entry that no stage has anything to do for. *)
Lemma settled_no_writes (s : State) :
  migration_write CONF_ALLOW_UNREACHABLE DEFAULT_ALLOW_UNREACHABLE
                  (st_entry s) = None →
  migration_write CONF_ALLOW_HUE_GROUPS DEFAULT_ALLOW_HUE_GROUPS
                  (st_entry s) = None →
  override_write (legacy_record s) (st_entry s) = None →
  is_Some (unique_id (st_entry s)) →
  update_calls (st_hass (async_setup_entry s).1) = update_calls (st_hass s)
  ∧ st_entry (async_setup_entry s).1 = st_entry s.
Proof.
  intros Hu Hg Ho [uid Huid].
  rewrite async_setup_entry_run.
  destruct (data (st_entry s) !! "host") as [host|] eqn:Hhost; [|auto].
  cbv zeta.
  assert (Hm : merged (legacy_record s) s = s).
  { unfold merged. rewrite Hu. cbn [opt_update]. rewrite Hg. cbn [opt_update].
    rewrite Ho. reflexivity. }
  rewrite Hm.
  destruct (bridge_async_setup bridge); [|auto].
  cbn [fst]. unfold loaded, unique_id_write. cbn [st_entry st_hass].
  rewrite Huid. cbn [opt_update st_hass st_entry].
  split; [|reflexivity].
  unfold advised. repeat case_match; reflexivity.
Qed.

(** C6: on a fully migrated entry - neither flag in [data], every flag
    of the legacy record (if there is one) equal to the one in [options],
    unique identifier assigned - a run issues no persistence write and
    leaves the entry as it is, so that a further run finds it fully
    migrated again. *)
Theorem fully_migrated_no_writes (s : State) :
  data (st_entry s) !! CONF_ALLOW_UNREACHABLE = None →
  data (st_entry s) !! CONF_ALLOW_HUE_GROUPS = None →
  (∀ h config,
     data (st_entry s) !! "host" = Some (VStr h) →
     data_configs (st_hass s) !! h = Some config →
     legacy_matches CONF_ALLOW_UNREACHABLE config (st_entry s)
     ∧ legacy_matches CONF_ALLOW_HUE_GROUPS config (st_entry s)) →
  is_Some (unique_id (st_entry s)) →
  update_calls (st_hass (async_setup_entry s).1) = update_calls (st_hass s)
  ∧ st_entry (async_setup_entry s).1 = st_entry s.
Proof.
  intros Hu Hg Hlegacy Huid.
  apply settled_no_writes; [| | |exact Huid].
  - apply migration_write_absent, Hu.
  - apply migration_write_absent, Hg.
  - apply override_write_matches.
    intros c Hc. apply legacy_record_Some in Hc as (h & Hh & Hc).
    apply (Hlegacy h c); assumption.
Qed.

(** ** Bridge setup and the firmware advisory *)

Lemma loaded_advisories s :
  notifications (st_hass (loaded s))
  = notifications (advised (bridge_api_config bridge) (st_hass s))
  ∧ warnings (st_hass (loaded s))
    = warnings (advised (bridge_api_config bridge) (st_hass s)).
Proof.
  unfold loaded, unique_id_write, advised. cbn [st_entry st_hass].
  destruct (unique_id (st_entry s)); repeat case_match; split; reflexivity.
Qed.

Lemma advised_at_most_one config h :
  ∃ ns ws,
    notifications (advised config h) = notifications h ++ ns
    ∧ warnings (advised config h) = warnings h ++ ws
    ∧ (length ns + length ws ≤ 1)%nat.
Proof.
  unfold advised.
  destruct (String.eqb (modelid config) "BSB002"
            && str_lt (swversion config) "1935144040").
  - exists [security_notification], []. cbn. rewrite app_nil_r. auto.
  - destruct (String.eqb (swupdate2_bridge_state config) "readytoinstall").
    + exists [], [update_warning]. cbn. rewrite app_nil_r. auto.
    + exists [], []. cbn. rewrite !app_nil_r. auto.
Qed.

(** C7: a setup call issues at most one of the two advisories; its
    boolean result is the answer of the bridge's setup, whatever the
    descriptor says; and once the bridge is set up, a descriptor with
    model ["BSB002"] and a firmware below ["1935144040"] gets the security
    notification and no update warning, whatever its
    [swupdate2_bridge_state]. *)
Theorem firmware_advisory_exclusive (s : State) :
  let r := async_setup_entry s in
  let config := bridge_api_config bridge in
  (∃ ns ws,
      notifications (st_hass r.1) = notifications (st_hass s) ++ ns
      ∧ warnings (st_hass r.1) = warnings (st_hass s) ++ ws
      ∧ (length ns + length ws ≤ 1)%nat)
  ∧ (is_Some (data (st_entry s) !! "host") →
     r.2 = Return (bridge_async_setup bridge))
  ∧ (is_Some (data (st_entry s) !! "host") →
     bridge_async_setup bridge = true →
     modelid config = "BSB002" →
     str_lt (swversion config) "1935144040" = true →
     notifications (st_hass r.1)
     = notifications (st_hass s) ++ [security_notification]
     ∧ warnings (st_hass r.1) = warnings (st_hass s)).
Proof.
  cbv zeta. rewrite async_setup_entry_run.
  destruct (merge_frame_merged (legacy_record s) s)
    as (_ & _ & _ & Hn & Hw & _).
  split; [|split].
  - destruct (data (st_entry s) !! "host").
    + cbv zeta. destruct (bridge_async_setup bridge); cbn [fst].
      * destruct (loaded_advisories (merged (legacy_record s) s)) as [-> ->].
        rewrite <- Hn, <- Hw. apply advised_at_most_one.
      * exists [], []. rewrite Hn, Hw, !app_nil_r. auto.
    + exists [], []. cbn. rewrite !app_nil_r. auto.
  - intros [host ->]. cbv zeta.
    destruct (bridge_async_setup bridge); reflexivity.
  - intros [host ->] Hset Hmodel Hsw. cbv zeta. rewrite Hset. cbn [fst].
    destruct (loaded_advisories (merged (legacy_record s) s)) as [-> ->].
    unfold advised. rewrite Hmodel, Hsw. cbn. rewrite Hn, Hw. auto.
Qed.

(** C8: when the bridge's setup answers false, the call returns false
    with the connection map, the device registry, the unique identifier
    and the advisories exactly as they were. *)
Theorem failed_setup_stops (s : State) :
  is_Some (data (st_entry s) !! "host") →
  bridge_async_setup bridge = false →
  let r := async_setup_entry s in
  r.2 = Return false
  ∧ data_domain (st_hass r.1) = data_domain (st_hass s)
  ∧ device_calls (st_hass r.1) = device_calls (st_hass s)
  ∧ unique_id (st_entry r.1) = unique_id (st_entry s)
  ∧ notifications (st_hass r.1) = notifications (st_hass s)
  ∧ warnings (st_hass r.1) = warnings (st_hass s).
Proof.
  intros [host Hhost] Hset. cbv zeta.
  rewrite async_setup_entry_run, Hhost. cbv zeta. rewrite Hset. cbn [fst snd].
  destruct (merge_frame_merged (legacy_record s) s)
    as (Hd & _ & Hdev & Hn & Hw & _ & Hu).
  auto 10.
Qed.

(** ** Unload *)

(** C9: unload removes the bridge stored under the entry's [entry_id] and
    returns the answer of its reset; with nothing stored it raises
    [KeyError] and leaves [hass] as it is; in both cases every other slot
    of the map and every other part of [hass] stay as they are. *)
Theorem unload_entry (hass : Hass) (entry : ConfigEntry) :
  let r := async_unload_entry entry hass in
  (∀ b, data_domain hass !! entry_id entry = Some b →
        r.2 = Return (bridge_async_reset b)
        ∧ data_domain r.1 !! entry_id entry = None)
  ∧ (data_domain hass !! entry_id entry = None →
     r = (hass, Raise (KeyError (entry_id entry))))
  ∧ (∀ k, k ≠ entry_id entry → data_domain r.1 !! k = data_domain hass !! k)
  ∧ data_configs r.1 = data_configs hass
  ∧ async_entries r.1 = async_entries hass
  ∧ update_calls r.1 = update_calls hass
  ∧ created_tasks r.1 = created_tasks hass
  ∧ device_calls r.1 = device_calls hass
  ∧ notifications r.1 = notifications hass
  ∧ warnings r.1 = warnings hass.
Proof.
  cbv zeta. unfold async_unload_entry. rewrite bind_run. unfold pop_bridge.
  destruct (data_domain hass !! entry_id entry) as [b|] eqn:Hb.
  - cbn. split; [|split; [|split]].
    + intros b' [= <-]. split; [reflexivity | apply lookup_delete_eq].
    + discriminate.
    + intros k Hk. apply lookup_delete_ne. congruence.
    + repeat split.
  - cbn. split; [|split; [|split]].
    + discriminate.
    + reflexivity.
    + reflexivity.
    + repeat split.
Qed.

(** ** The legacy importer *)

Lemma async_setup_loop_run hosts bridges (h : Hass) :
  (async_setup_loop hosts bridges h).2 = Return tt
  ∧ created_tasks (async_setup_loop hosts bridges h).1
    = created_tasks h ++ imports hosts bridges.
Proof.
  revert h. induction bridges as [|bc rest IH]; intros h.
  - cbn. rewrite app_nil_r. auto.
  - cbn [async_setup_loop]. rewrite bind_run.
    unfold async_setup_bridge, imports. rewrite bind_run. cbn [modify List.filter].
    destruct (host_in (conf_host bc) hosts); cbn [negb mret M_ret modify].
    + destruct (IH (set_data_configs <[conf_host bc:=bc]> h)) as [Hr Ht].
      split; [exact Hr|]. rewrite Ht. reflexivity.
    + destruct (IH (log_task (mkFlowInit DOMAIN SOURCE_IMPORT
                                {["host" := VStr (conf_host bc)]})
                      (set_data_configs <[conf_host bc:=bc]> h)))
        as [Hr Ht].
      split; [exact Hr|]. rewrite Ht. cbn. rewrite <- app_assoc. reflexivity.
Qed.

Lemma async_setup_run config (hass : Hass) :
  (async_setup config hass).2 = Return true
  ∧ created_tasks (async_setup config hass).1
    = created_tasks hass
      ++ imports (configured_hosts (async_entries hass)) (legacy_bridges config).
Proof.
  unfold async_setup.
  rewrite bind_run. cbn [modify]. rewrite bind_run. cbn [modify].
  destruct config as [[bridges|]|]; cbn [default from_option id legacy_bridges].
  - rewrite bind_run. cbn [get]. rewrite bind_run.
    set (h0 := set_data_configs (fun _ => ∅) (set_data_domain (fun _ => ∅) hass)).
    destruct (async_setup_loop_run (configured_hosts (async_entries h0))
                bridges h0) as [Hr Ht].
    destruct (async_setup_loop _ bridges h0) as [h1 r1]. cbn in Hr, Ht.
    subst r1. cbn. rewrite Ht. auto.
  - cbn. rewrite app_nil_r. auto.
  - cbn. rewrite app_nil_r. auto.
Qed.

Lemma new_tasks_imports config hass :
  new_tasks config hass
  = imports (configured_hosts (async_entries hass)) (legacy_bridges config).
Proof.
  unfold new_tasks. destruct (async_setup_run config hass) as [_ ->].
  apply drop_app_length.
Qed.

Lemma host_in_stored entries host :
  host_in host (configured_hosts entries) = true ↔ host_stored entries host.
Proof.
  unfold host_in, configured_hosts, host_stored.
  rewrite existsb_exists. split.
  - intros (v & Hin & Heq). apply in_map_iff in Hin as (e & <- & Hin).
    exists e. split; [apply list_elem_of_In; exact Hin|].
    destruct (data e !! "host") as [[| | |h]|]; try discriminate.
    cbn in Heq. apply String.eqb_eq in Heq. congruence.
  - intros (e & Hin & Hh). exists (VStr host). split.
    + apply in_map_iff. exists e. rewrite Hh.
      split; [reflexivity | apply list_elem_of_In; exact Hin].
    + cbn. apply String.eqb_refl.
Qed.

Lemma import_request_data host host' :
  flow_data (import_request host') = {[ "host" := VStr host ]} ↔ host' = host.
Proof.
  cbn. split; [|intros ->; reflexivity].
  intros He.
  assert (Hl : ({[ "host" := VStr host' ]} : gmap string value) !! "host"
               = ({[ "host" := VStr host ]} : gmap string value) !! "host")
    by (rewrite He; reflexivity).
  rewrite !lookup_singleton_eq in Hl. congruence.
Qed.

Lemma requests_for_imports host hosts bridges :
  requests_for host (imports hosts bridges)
  = if host_in host hosts then 0 else records_for host bridges.
Proof.
  unfold requests_for, records_for, imports.
  induction bridges as [|bc rest IH].
  - destruct (host_in host hosts); reflexivity.
  - cbn [List.filter]. rewrite (filter_cons _ bc rest).
    destruct (host_in (conf_host bc) hosts) eqn:Hbc; cbn [negb map].
    + rewrite IH. destruct (host_in host hosts) eqn:Hh; [reflexivity|].
      rewrite decide_False; [reflexivity | congruence].
    + rewrite filter_cons.
      destruct (decide (conf_host bc = host)) as [He | Hne].
      * rewrite decide_True by (apply import_request_data; exact He).
        cbn [length]. rewrite IH. rewrite <- He, Hbc. reflexivity.
      * rewrite decide_False by (rewrite import_request_data; exact Hne).
        exact IH.
Qed.

Lemma imports_from_records hosts bridges :
  Forall (fun t => ∃ bc, bc ∈ bridges ∧ t = import_request (conf_host bc))
         (imports hosts bridges).
Proof.
  unfold imports. apply Forall_forall. intros t Hin.
  apply list_elem_of_In, in_map_iff in Hin as (bc & <- & Hin).
  apply filter_In in Hin as [Hin _].
  exists bc. split; [apply list_elem_of_In; exact Hin | reflexivity].
Qed.

Lemma records_for_absent host bridges :
  host ∉ conf_host <$> bridges → records_for host bridges = 0.
Proof.
  unfold records_for. induction bridges as [|bc rest IH]; cbn [fmap list_fmap].
  - reflexivity.
  - intros Hnotin. apply not_elem_of_cons in Hnotin as [Hne Hnotin].
    rewrite filter_cons, decide_False by congruence. apply IH, Hnotin.
Qed.

Lemma records_for_NoDup host bridges :
  NoDup (conf_host <$> bridges) → host ∈ conf_host <$> bridges →
  records_for host bridges = 1.
Proof.
  induction bridges as [|bc rest IH]; cbn [fmap list_fmap].
  - intros _ Hin. inversion Hin.
  - intros Hnd Hin. apply NoDup_cons in Hnd as [Hnotin Hnd].
    unfold records_for. rewrite filter_cons.
    destruct (decide (conf_host bc = host)) as [He | Hne].
    + cbn [length]. f_equal. apply records_for_absent. rewrite <- He.
      exact Hnotin.
    + apply IH; [exact Hnd|]. apply elem_of_cons in Hin as [Hin | Hin];
        [congruence | exact Hin].
Qed.

(** C4, as the code has it: [async_setup] schedules one create-entry
    request for every legacy record whose host no existing entry stores,
    each carrying exactly [{host: <value>}], and none for a host that an
    entry stores; a host named by several records gets as many requests.
    When the legacy records name distinct hosts, that is one request per
    new host. *)
Theorem import_requests_per_record
    (config : option (option (list BridgeConf))) (hass : Hass) :
  let new := new_tasks config hass in
  (async_setup config hass).2 = Return true
  ∧ created_tasks (async_setup config hass).1 = created_tasks hass ++ new
  ∧ Forall (fun t => ∃ bc, bc ∈ legacy_bridges config
                           ∧ t = import_request (conf_host bc)) new
  ∧ (∀ host,
       (host_stored (async_entries hass) host → requests_for host new = 0)
       ∧ (¬ host_stored (async_entries hass) host →
          requests_for host new = records_for host (legacy_bridges config)))
  ∧ (NoDup (conf_host <$> legacy_bridges config) →
     one_request_per_host config hass).
Proof.
  cbv zeta.
  assert (Hcount : ∀ host,
    (host_stored (async_entries hass) host →
     requests_for host (new_tasks config hass) = 0)
    ∧ (¬ host_stored (async_entries hass) host →
       requests_for host (new_tasks config hass)
       = records_for host (legacy_bridges config))).
  { intros host. rewrite new_tasks_imports, requests_for_imports.
    rewrite <- host_in_stored.
    destruct (host_in host (configured_hosts (async_entries hass)));
      split; intros H; try reflexivity; try discriminate.
    exfalso. apply H. reflexivity. }
  destruct (async_setup_run config hass) as [Hr Ht].
  split; [exact Hr|]. split; [rewrite new_tasks_imports; exact Ht|].
  split; [rewrite new_tasks_imports; apply imports_from_records|].
  split; [exact Hcount|].
  intros Hnd host Hin. destruct (Hcount host) as [Hs Hn]. split.
  - intros Hns. rewrite (Hn Hns). apply records_for_NoDup; assumption.
  - exact Hs.
Qed.

(** ** A run settles the entry *)

Lemma py_eq_refl (v : value) : py_eq v v = true.
Proof.
  destruct v as [|[]|z|x]; unfold py_eq, as_int; try reflexivity.
  - apply Z.eqb_refl.
  - apply String.eqb_refl.
Qed.

Lemma migration_write_settled key dflt entry entry' :
  migration_write key dflt entry = None →
  data entry' !! key = data entry !! key →
  (is_Some (options entry !! key) → is_Some (options entry' !! key)) →
  migration_write key dflt entry' = None.
Proof.
  unfold migration_write. intros Hw Hd Ho. rewrite Hd.
  destruct (options entry !! key) as [o|] eqn:Hopt.
  - destruct Ho as [o' ->]; [eauto | reflexivity].
  - destruct (data entry !! key) as [v|];
      [|destruct (options entry' !! key); reflexivity].
    destruct (py_ne v (VBool dflt)); [discriminate|].
    destruct (options entry' !! key); reflexivity.
Qed.

Lemma migrated_options_mono key dflt s k :
  is_Some (options (st_entry s) !! k) →
  is_Some (options (st_entry
             (opt_update (migration_write key dflt (st_entry s)) s)) !! k).
Proof.
  intros Hk. rewrite migrated_options. unfold migration_write.
  destruct (options (st_entry s) !! key) eqn:Ho; [exact Hk|].
  destruct (data (st_entry s) !! key) as [v|]; [|exact Hk].
  destruct (py_ne v (VBool dflt)); [|exact Hk].
  destruct (decide (key = k)) as [<- | _]; [|exact Hk].
  rewrite Ho in Hk. destruct Hk as [? [=]].
Qed.

Lemma override_options_mono config s k :
  is_Some (options (st_entry s) !! k) →
  is_Some (options (st_entry
             (opt_update (override_write config (st_entry s)) s)) !! k).
Proof.
  intros Hk. destruct config as [c|]; [|exact Hk].
  rewrite override_write_lookup.
  destruct (override_options c (st_entry s) !! k); [eauto | exact Hk].
Qed.

Lemma overrides_settled key config s :
  key = CONF_ALLOW_UNREACHABLE ∨ key = CONF_ALLOW_HUE_GROUPS →
  overrides key config
    (st_entry (opt_update (override_write (Some config) (st_entry s)) s))
  = None.
Proof.
  intros Hkey. unfold overrides at 1. rewrite override_write_lookup.
  assert (Hlk : override_options config (st_entry s) !! key
                = overrides key config (st_entry s)).
  { destruct Hkey as [-> | ->];
      [apply override_options_lookup_unreachable
      |apply override_options_lookup_hue_groups]. }
  rewrite Hlk. unfold overrides.
  destruct (conf_get key config) as [c|]; [|reflexivity].
  destruct (options (st_entry s) !! key) as [o|] eqn:Ho.
  - destruct (py_ne c o) eqn:Hne.
    + unfold py_ne. rewrite py_eq_refl. reflexivity.
    + rewrite Hne. reflexivity.
  - unfold py_ne. rewrite py_eq_refl. reflexivity.
Qed.

Lemma override_write_settled config s :
  override_write config
    (st_entry (opt_update (override_write config (st_entry s)) s))
  = None.
Proof.
  destruct config as [c|]; [|reflexivity].
  unfold override_write at 1.
  case_bool_decide as He; [|reflexivity].
  exfalso. apply He, override_options_empty.
  split; apply overrides_settled; auto.
Qed.

(** None of the stages changes what the others read. *)
Lemma override_write_ext config entry entry' :
  options entry' = options entry →
  override_write config entry' = override_write config entry.
Proof.
  intros Ho. destruct config as [c|]; [|reflexivity].
  unfold override_write, override_options, overrides. rewrite Ho. reflexivity.
Qed.

Lemma migration_write_ext key dflt entry entry' :
  data entry' = data entry → options entry' = options entry →
  migration_write key dflt entry' = migration_write key dflt entry.
Proof. unfold migration_write. intros -> ->. reflexivity. Qed.

Lemma merged_host config s :
  data (st_entry (merged config s)) !! "host" = data (st_entry s) !! "host".
Proof.
  unfold merged. rewrite override_keeps_data.
  rewrite !migrated_data_ne by discriminate. reflexivity.
Qed.

Lemma loaded_frame s :
  data_configs (st_hass (loaded s)) = data_configs (st_hass s)
  ∧ is_Some (unique_id (st_entry (loaded s))).
Proof.
  unfold loaded, unique_id_write, advised. cbn [st_entry st_hass].
  destruct (unique_id (st_entry s)) eqn:Hu; cbn [opt_update st_hass st_entry];
    (split; [repeat case_match; reflexivity|]); cbn; rewrite ?Hu; eauto.
Qed.

Lemma migration_settles key dflt s :
  migration_write key dflt
    (st_entry (opt_update (migration_write key dflt (st_entry s)) s)) = None.
Proof.
  destruct (migration_write key dflt (st_entry s)) as [u|] eqn:Hw;
    [|exact Hw].
  apply migration_write_absent.
  rewrite <- Hw, migrated_data, Hw, decide_True; reflexivity.
Qed.

Lemma migration_keeps_settled key dflt key' dflt' s :
  key' ≠ key →
  migration_write key dflt (st_entry s) = None →
  migration_write key dflt
    (st_entry (opt_update (migration_write key' dflt' (st_entry s)) s)) = None.
Proof.
  intros Hne Hw. apply (migration_write_settled _ _ (st_entry s)).
  - exact Hw.
  - apply migrated_data_ne, Hne.
  - apply migrated_options_mono.
Qed.

Lemma override_keeps_settled key dflt config s :
  migration_write key dflt (st_entry s) = None →
  migration_write key dflt
    (st_entry (opt_update (override_write config (st_entry s)) s)) = None.
Proof.
  intros Hw. apply (migration_write_settled _ _ (st_entry s)).
  - exact Hw.
  - rewrite override_keeps_data. reflexivity.
  - apply override_options_mono.
Qed.

(** After a run that returned true no stage has anything left to do. *)
Lemma run_settles (s : State) :
  (async_setup_entry s).2 = Return true →
  let s' := (async_setup_entry s).1 in
  migration_write CONF_ALLOW_UNREACHABLE DEFAULT_ALLOW_UNREACHABLE
                  (st_entry s') = None
  ∧ migration_write CONF_ALLOW_HUE_GROUPS DEFAULT_ALLOW_HUE_GROUPS
                    (st_entry s') = None
  ∧ override_write (legacy_record s') (st_entry s') = None
  ∧ is_Some (unique_id (st_entry s')).
Proof.
  cbv zeta. rewrite async_setup_entry_run.
  destruct (data (st_entry s) !! "host") as [host|] eqn:Hhost;
    [|discriminate].
  cbv zeta. destruct (bridge_async_setup bridge); [|discriminate].
  intros _. cbn [fst].
  set (config := legacy_record s).
  destruct (loaded_entry_maps (merged config s)) as [Hd Ho].
  destruct (loaded_frame (merged config s)) as [Hc Hu].
  assert (Hrec : legacy_record (loaded (merged config s)) = config).
  { unfold legacy_record. rewrite Hd, Hc, merged_host.
    destruct (merge_frame_merged config s) as (_ & -> & _). reflexivity. }
  rewrite Hrec.
  rewrite !(migration_write_ext _ _ _ _ Hd Ho), (override_write_ext _ _ _ Ho).
  unfold merged.
  split; [|split; [|split; [|exact Hu]]].
  - apply override_keeps_settled, migration_keeps_settled;
      [symmetry; exact flag_keys_differ | apply migration_settles].
  - apply override_keeps_settled, migration_settles.
  - apply override_write_settled.
Qed.

(** ** The importer's tables *)

Lemma async_setup_bridge_run hosts bc (h : Hass) :
  ∃ tasks,
    async_setup_bridge hosts bc h
    = (mkHass (data_domain h) (<[conf_host bc := bc]> (data_configs h))
              (async_entries h) (update_calls h) tasks (device_calls h)
              (notifications h) (warnings h), Return tt).
Proof.
  unfold async_setup_bridge. rewrite bind_run. cbn [modify].
  destruct (host_in (conf_host bc) hosts); eexists; reflexivity.
Qed.

Lemma last_record_cons host bc rest :
  last_record host (bc :: rest)
  = match last_record host rest with
    | Some c => Some c
    | None => if decide (conf_host bc = host) then Some bc else None
    end.
Proof.
  unfold last_record. rewrite filter_cons.
  destruct (decide (conf_host bc = host)); [|destruct (last _); reflexivity].
  apply last_cons.
Qed.

Lemma async_setup_loop_frame hosts bridges (h : Hass) :
  let h' := (async_setup_loop hosts bridges h).1 in
  data_domain h' = data_domain h
  ∧ async_entries h' = async_entries h
  ∧ update_calls h' = update_calls h
  ∧ device_calls h' = device_calls h
  ∧ notifications h' = notifications h
  ∧ warnings h' = warnings h
  ∧ ∀ host, data_configs h' !! host
            = match last_record host bridges with
              | Some c => Some c
              | None => data_configs h !! host
              end.
Proof.
  cbv zeta. revert h. induction bridges as [|bc rest IH]; intros h.
  - cbn. repeat split.
  - cbn [async_setup_loop]. rewrite bind_run.
    destruct (async_setup_bridge_run hosts bc h) as [tasks ->].
    match goal with |- context [async_setup_loop hosts rest ?h1] =>
      specialize (IH h1) end.
    destruct IH as (Hd & He & Hu & Hdev & Hn & Hw & Ht).
    repeat split; try assumption.
    intros host. rewrite Ht, last_record_cons. cbn [data_configs].
    destruct (last_record host rest); [reflexivity|].
    destruct (decide (conf_host bc = host)) as [<- | Hne].
    + apply lookup_insert_eq.
    + rewrite lookup_insert_ne by exact Hne. reflexivity.
Qed.

Lemma async_setup_frame config (hass : Hass) :
  let h' := (async_setup config hass).1 in
  data_domain h' = ∅
  ∧ async_entries h' = async_entries hass
  ∧ update_calls h' = update_calls hass
  ∧ device_calls h' = device_calls hass
  ∧ notifications h' = notifications hass
  ∧ warnings h' = warnings hass
  ∧ ∀ host, data_configs h' !! host
            = last_record host (legacy_bridges config).
Proof.
  cbv zeta. unfold async_setup.
  rewrite bind_run. cbn [modify]. rewrite bind_run. cbn [modify].
  destruct config as [[bridges|]|]; cbn [default from_option id legacy_bridges];
    try (cbn; repeat split; intros host; apply lookup_empty).
  rewrite bind_run. cbn [get]. rewrite bind_run.
  set (h0 := set_data_configs (fun _ => ∅) (set_data_domain (fun _ => ∅) hass)).
  destruct (async_setup_loop_frame (configured_hosts (async_entries h0))
              bridges h0) as (Hd & He & Hu & Hdev & Hn & Hw & Ht).
  destruct (async_setup_loop _ bridges h0) as [h1 r1].
  cbn [fst] in *. destruct r1; cbn [fst]; repeat split; try assumption.
  - intros host. rewrite Ht. destruct (last_record host bridges); [reflexivity|].
    apply lookup_empty.
  - intros host. rewrite Ht. destruct (last_record host bridges); [reflexivity|].
    apply lookup_empty.
Qed.

Lemma last_record_Some host bridges c :
  last_record host bridges = Some c → conf_host c = host ∧ c ∈ bridges.
Proof.
  unfold last_record. intros Hl.
  assert (Hin : c ∈ filter (fun bc => conf_host bc = host) bridges).
  { apply last_Some_elem_of, Hl. }
  apply list_elem_of_filter in Hin. exact Hin.
Qed.

Lemma last_record_is_Some host bridges :
  is_Some (last_record host bridges) ↔ host ∈ conf_host <$> bridges.
Proof.
  induction bridges as [|bc rest IH].
  - cbn. split; [intros [c Hc]; discriminate | intros Hin; inversion Hin].
  - rewrite last_record_cons, fmap_cons, elem_of_cons, <- IH.
    destruct (last_record host rest) as [c|].
    + split; eauto.
    + destruct (decide (conf_host bc = host)) as [He | Hne].
      * split; eauto.
      * split; [intros [c Hc]; discriminate|].
        intros [He | [c Hc]]; [congruence | discriminate].
Qed.

(** X1: [async_setup] always returns true, empties [hass.data[DOMAIN]]
    whatever it held, and touches neither the entries nor the logs of
    writes, devices, notifications and warnings; with no bridge record to
    import (no [DOMAIN] section, no [bridges] key, or an empty list) it
    schedules nothing and leaves the host table empty. *)
Theorem async_setup_resets (config : option (option (list BridgeConf)))
    (hass : Hass) :
  let r := async_setup config hass in
  r.2 = Return true
  ∧ data_domain r.1 = ∅
  ∧ async_entries r.1 = async_entries hass
  ∧ update_calls r.1 = update_calls hass
  ∧ device_calls r.1 = device_calls hass
  ∧ notifications r.1 = notifications hass
  ∧ warnings r.1 = warnings hass
  ∧ (legacy_bridges config = [] →
     data_configs r.1 = ∅ ∧ created_tasks r.1 = created_tasks hass).
Proof.
  cbv zeta.
  destruct (async_setup_run config hass) as [Hr Ht].
  destruct (async_setup_frame config hass) as (Hd & He & Hu & Hdev & Hn & Hw & Hc).
  do 7 (split; [assumption|]).
  intros Hnone. split.
  - apply map_eq. intros host. rewrite Hc, Hnone, lookup_empty. reflexivity.
  - rewrite Ht, Hnone. apply app_nil_r.
Qed.

(** X2: the host table [async_setup] builds is read off the legacy
    records alone: a host maps to the last record that names it, whatever
    the table held before, and the hosts of the table are exactly the
    hosts the records name. *)
Theorem async_setup_table (config : option (option (list BridgeConf)))
    (hass : Hass) (host : string) :
  let table := data_configs (async_setup config hass).1 in
  table !! host = last_record host (legacy_bridges config)
  ∧ (is_Some (table !! host) ↔ host ∈ conf_host <$> legacy_bridges config)
  ∧ (∀ c, table !! host = Some c →
          conf_host c = host ∧ c ∈ legacy_bridges config).
Proof.
  cbv zeta.
  destruct (async_setup_frame config hass) as (_ & _ & _ & _ & _ & _ & Hc).
  rewrite Hc. split; [reflexivity|]. split.
  - apply last_record_is_Some.
  - intros c. apply last_record_Some.
Qed.

(** ** A whole run of the reconciler *)

Lemma update_calls_opt_update o s :
  update_calls (st_hass (opt_update o s))
  = update_calls (st_hass s) ++ option_list o.
Proof. destruct o; cbn; [reflexivity | rewrite app_nil_r; reflexivity]. Qed.

(** The maps of the entry after a run are those the merge leaves. *)
Lemma async_setup_entry_maps s :
  is_Some (data (st_entry s) !! "host") →
  data (st_entry (async_setup_entry s).1)
  = data (st_entry (merged (legacy_record s) s))
  ∧ options (st_entry (async_setup_entry s).1)
    = options (st_entry (merged (legacy_record s) s)).
Proof.
  intros [host Hhost]. rewrite async_setup_entry_run, Hhost. cbv zeta.
  destruct (bridge_async_setup bridge); cbn [fst];
    [apply loaded_entry_maps | split; reflexivity].
Qed.

Lemma merged_options_legacy config s key b :
  key = CONF_ALLOW_UNREACHABLE ∨ key = CONF_ALLOW_HUE_GROUPS →
  conf_get key config = Some (VBool b) →
  ∃ v, options (st_entry (merged (Some config) s)) !! key = Some v
       ∧ py_eq v (VBool b) = true.
Proof.
  intros Hkey Hc. unfold merged. rewrite override_write_lookup.
  match goal with |- context [override_options config (st_entry ?s2)] =>
    set (e2 := st_entry s2) end.
  assert (Hlk : override_options config e2 !! key = overrides key config e2).
  { destruct Hkey as [-> | ->];
      [apply override_options_lookup_unreachable
      |apply override_options_lookup_hue_groups]. }
  rewrite Hlk. unfold overrides. rewrite Hc.
  destruct (options e2 !! key) as [o|] eqn:Ho.
  - destruct (py_ne (VBool b) o) eqn:Hne.
    + exists (VBool b). split; [reflexivity | apply py_eq_refl].
    + exists o. split; [reflexivity|]. rewrite py_eq_sym.
      unfold py_ne in Hne. apply negb_false_iff in Hne. exact Hne.
  - exists (VBool b). split; [reflexivity | apply py_eq_refl].
Qed.

(** X3: the importer and the reconciler compose: once [async_setup] has
    read the legacy records, a run of [async_setup_entry] on an entry for
    host [h] ends with each flag that the last record naming [h] holds
    equal to that record's value in [options] ([False == 0] and
    [True == 1] count as equal, as in the code's [!=]). *)
Theorem setup_then_setup_entry (config : option (option (list BridgeConf)))
    (hass : Hass) (entry : ConfigEntry) (h : string) (c : BridgeConf)
    (key : string) (b : bool) :
  key = CONF_ALLOW_UNREACHABLE ∨ key = CONF_ALLOW_HUE_GROUPS →
  data entry !! "host" = Some (VStr h) →
  last_record h (legacy_bridges config) = Some c →
  conf_get key c = Some (VBool b) →
  let hass1 := (async_setup config hass).1 in
  ∃ v, options (st_entry (async_setup_entry (mkState hass1 entry)).1) !! key
       = Some v
       ∧ py_eq v (VBool b) = true.
Proof.
  intros Hkey Hhost Hlast Hc. cbv zeta.
  destruct (async_setup_frame config hass) as (_ & _ & _ & _ & _ & _ & Ht).
  destruct (async_setup_entry_maps
              (mkState (async_setup config hass).1 entry)) as [_ ->];
    [cbn; eauto|].
  rewrite (legacy_record_lookup _ h) by exact Hhost.
  cbn [st_hass]. rewrite Ht, Hlast.
  apply merged_options_legacy; assumption.
Qed.

(** X4: an entry whose [data] has no ["host"] makes [async_setup_entry]
    raise [KeyError("host")] before anything else happens: no migration,
    no write, no bridge, the state is exactly as it was. *)
Theorem missing_host_raises (s : State) :
  data (st_entry s) !! "host" = None →
  async_setup_entry s = (s, Raise (KeyError "host")).
Proof. intros Hhost. rewrite async_setup_entry_run, Hhost. reflexivity. Qed.

Lemma loaded_hass s :
  data_domain (st_hass (loaded s))
  = <[entry_id (st_entry s) := bridge]> (data_domain (st_hass s))
  ∧ device_calls (st_hass (loaded s))
    = device_calls (st_hass s) ++ [bridge_device (st_entry s)]
  ∧ update_calls (st_hass (loaded s))
    = update_calls (st_hass s) ++ option_list (unique_id_write (st_entry s))
  ∧ entry_id (st_entry (loaded s)) = entry_id (st_entry s)
  ∧ unique_id (st_entry (loaded s))
    = match unique_id (st_entry s) with
      | Some u => Some u
      | None => Some (normalize_bridge_id (bridgeid (bridge_api_config bridge)))
      end.
Proof.
  unfold loaded, unique_id_write, advised, bridge_device.
  cbn [st_entry st_hass].
  destruct (unique_id (st_entry s)) eqn:Hu; cbn [opt_update st_hass st_entry];
    repeat case_match; cbn; rewrite ?Hu, ?app_nil_r; repeat split.
Qed.

(** X5: when the bridge's setup answers true (on an entry that has a
    host), the call returns true, stores the bridge under the entry's
    [entry_id] - replacing what was stored there, leaving every other
    slot - and registers exactly one device: the entry's id, the MAC
    connection, the [(DOMAIN, bridgeid)] identifier, manufacturer
    ["Signify"], and name, model and firmware from the descriptor. *)
Theorem successful_setup_registers (s : State) :
  is_Some (data (st_entry s) !! "host") →
  bridge_async_setup bridge = true →
  let r := async_setup_entry s in
  r.2 = Return true
  ∧ data_domain (st_hass r.1)
    = <[entry_id (st_entry s) := bridge]> (data_domain (st_hass s))
  ∧ device_calls (st_hass r.1)
    = device_calls (st_hass s) ++ [bridge_device (st_entry s)].
Proof.
  intros [host Hhost] Hset. cbv zeta.
  rewrite async_setup_entry_run, Hhost. cbv zeta. rewrite Hset. cbn [fst snd].
  destruct (loaded_hass (merged (legacy_record s) s))
    as (Hd & Hdev & _).
  destruct (merge_frame_merged (legacy_record s) s)
    as (Hd' & _ & Hdev' & _ & _ & Hid & _).
  split; [reflexivity|]. split.
  - rewrite Hd, Hid, Hd'. reflexivity.
  - rewrite Hdev, Hdev'. unfold bridge_device. rewrite Hid. reflexivity.
Qed.

Lemma merged_writes config s :
  ∃ new, update_calls (st_hass (merged config s))
         = update_calls (st_hass s) ++ new
         ∧ (length new ≤ 3)%nat
         ∧ Forall (fun u => upd_unique_id u = None) new.
Proof.
  unfold merged.
  set (w1 := migration_write CONF_ALLOW_UNREACHABLE _ (st_entry s)).
  set (s1 := opt_update w1 s).
  set (w2 := migration_write CONF_ALLOW_HUE_GROUPS _ (st_entry s1)).
  set (s2 := opt_update w2 s1).
  set (w3 := override_write config (st_entry s2)).
  exists (option_list w1 ++ option_list w2 ++ option_list w3).
  split; [|split].
  - subst s2. rewrite update_calls_opt_update.
    subst s1. rewrite !update_calls_opt_update, <- !app_assoc. reflexivity.
  - rewrite !length_app. destruct w1, w2, w3; cbn; lia.
  - rewrite !Forall_app. split; [|split].
    + destruct w1 as [u|] eqn:Hw; constructor; [|constructor].
      eapply migration_write_unique_id, Hw.
    + destruct w2 as [u|] eqn:Hw; constructor; [|constructor].
      eapply migration_write_unique_id, Hw.
    + destruct w3 as [u|] eqn:Hw; constructor; [|constructor].
      eapply override_write_unique_id, Hw.
Qed.

(** X6: the unique identifier is assigned once: after a run that set the
    bridge up, an entry that had none has the normalised bridge id, set by
    the last write of the run, which carries nothing else; an entry that
    had one keeps it, and no write of the run carries a unique id. *)
Theorem unique_id_assigned_once (s : State) :
  is_Some (data (st_entry s) !! "host") →
  bridge_async_setup bridge = true →
  let r := async_setup_entry s in
  let assigned := normalize_bridge_id (bridgeid (bridge_api_config bridge)) in
  ∃ new,
    Forall (fun u => upd_unique_id u = None) new
    ∧ (unique_id (st_entry s) = None →
       unique_id (st_entry r.1) = Some assigned
       ∧ update_calls (st_hass r.1)
         = update_calls (st_hass s) ++ new
             ++ [mkUpdateCall (Some assigned) None None])
    ∧ (∀ u, unique_id (st_entry s) = Some u →
       unique_id (st_entry r.1) = Some u
       ∧ update_calls (st_hass r.1) = update_calls (st_hass s) ++ new).
Proof.
  intros [host Hhost] Hset. cbv zeta.
  rewrite async_setup_entry_run, Hhost. cbv zeta. rewrite Hset. cbn [fst].
  destruct (merged_writes (legacy_record s) s) as (new & Hnew & _ & Hnone).
  destruct (loaded_hass (merged (legacy_record s) s))
    as (_ & _ & Hw & _ & Hu).
  destruct (merge_frame_merged (legacy_record s) s)
    as (_ & _ & _ & _ & _ & _ & Huid).
  exists new. split; [exact Hnone|].
  rewrite Hw, Hu, Hnew. unfold unique_id_write. rewrite Huid. split.
  - intros ->. cbn. rewrite <- app_assoc. auto.
  - intros u ->. cbn. rewrite app_nil_r. auto.
Qed.

(** X7: setup and unload are inverse on the connection map: after a run
    that set the bridge up, unloading the entry returns the answer of that
    bridge's reset and leaves the map as it was before the run without the
    entry's slot; unloading once more raises [KeyError]. *)
Theorem setup_then_unload (s : State) :
  is_Some (data (st_entry s) !! "host") →
  bridge_async_setup bridge = true →
  let s1 := (async_setup_entry s).1 in
  let r := async_unload_entry (st_entry s1) (st_hass s1) in
  r.2 = Return (bridge_async_reset bridge)
  ∧ data_domain r.1 = delete (entry_id (st_entry s)) (data_domain (st_hass s))
  ∧ (async_unload_entry (st_entry s1) r.1).2
    = Raise (KeyError (entry_id (st_entry s))).
Proof.
  intros [host Hhost] Hset. cbv zeta.
  rewrite async_setup_entry_run, Hhost. cbv zeta. rewrite Hset. cbn [fst].
  destruct (loaded_hass (merged (legacy_record s) s))
    as (Hd & _ & _ & Hid & _).
  destruct (merge_frame_merged (legacy_record s) s)
    as (Hd' & _ & _ & _ & _ & Hid' & _).
  rewrite Hid' in Hid, Hd. rewrite Hd' in Hd.
  unfold async_unload_entry. rewrite !bind_run. unfold pop_bridge.
  rewrite Hid, Hd, lookup_insert_eq. cbn [fst snd mret M_ret].
  cbn [set_data_domain data_domain]. rewrite Hd, delete_insert_eq.
  rewrite lookup_delete_eq. auto.
Qed.

(** X8: the other two outcomes of the firmware advisory: after a run that
    set the bridge up, a descriptor that is not both of model ["BSB002"]
    and below firmware ["1935144040"] gets no notification; it gets the
    update warning, once, exactly when its [swupdate2_bridge_state] is
    ["readytoinstall"]. *)
Theorem advisory_update_warning (s : State) :
  is_Some (data (st_entry s) !! "host") →
  bridge_async_setup bridge = true →
  let config := bridge_api_config bridge in
  modelid config ≠ "BSB002" ∨ str_lt (swversion config) "1935144040" = false →
  let r := async_setup_entry s in
  notifications (st_hass r.1) = notifications (st_hass s)
  ∧ (swupdate2_bridge_state config = "readytoinstall" →
     warnings (st_hass r.1) = warnings (st_hass s) ++ [update_warning])
  ∧ (swupdate2_bridge_state config ≠ "readytoinstall" →
     warnings (st_hass r.1) = warnings (st_hass s)).
Proof.
  intros [host Hhost] Hset. cbv zeta. intros Hsafe.
  rewrite async_setup_entry_run, Hhost. cbv zeta. rewrite Hset. cbn [fst].
  destruct (loaded_advisories (merged (legacy_record s) s)) as [-> ->].
  destruct (merge_frame_merged (legacy_record s) s)
    as (_ & _ & _ & Hn & Hw & _).
  unfold advised.
  assert (Hcond : String.eqb (modelid (bridge_api_config bridge)) "BSB002"
                  && str_lt (swversion (bridge_api_config bridge)) "1935144040"
                  = false).
  { destruct Hsafe as [Hm | Hv].
    - apply String.eqb_neq in Hm. rewrite Hm. reflexivity.
    - rewrite Hv. apply andb_false_r. }
  rewrite Hcond.
  destruct (String.eqb_spec (swupdate2_bridge_state (bridge_api_config bridge))
                            "readytoinstall") as [He | Hne]; cbn;
    rewrite Hn, Hw; repeat split; intros; congruence.
Qed.

(** ** The firmware comparison on version numbers *)

Lemma decimal_from_split acc s :
  decimal_from acc s
  = (acc * 10 ^ N.of_nat (String.length s) + decimal s)%N.
Proof.
  unfold decimal. revert acc. induction s as [|a s' IH]; intros acc.
  - cbn. lia.
  - cbn [decimal_from String.length].
    rewrite (IH (10 * acc + (N_of_ascii a - 48))%N),
            (IH (10 * 0 + (N_of_ascii a - 48))%N).
    rewrite Nat2N.inj_succ, N.pow_succ_r'. lia.
Qed.

Lemma decimal_cons a s :
  decimal (String a s)
  = ((N_of_ascii a - 48) * 10 ^ N.of_nat (String.length s) + decimal s)%N.
Proof.
  unfold decimal at 1. cbn [decimal_from]. rewrite decimal_from_split.
  reflexivity.
Qed.

Lemma decimal_bound s :
  all_digits s = true → (decimal s < 10 ^ N.of_nat (String.length s))%N.
Proof.
  induction s as [|a s' IH]; intros Hd.
  - cbn. lia.
  - cbn [all_digits] in Hd. apply andb_true_iff in Hd as [Ha Hs].
    unfold is_digit in Ha. apply andb_true_iff in Ha as [Hlo Hhi].
    apply N.leb_le in Hlo, Hhi. specialize (IH Hs).
    rewrite decimal_cons. cbn [String.length].
    rewrite Nat2N.inj_succ, N.pow_succ_r'. nia.
Qed.

(** On digit strings of one length, [<] on [str] is [<] on the numbers. *)
Lemma str_lt_decimal s t :
  String.length s = String.length t →
  all_digits s = true → all_digits t = true →
  str_lt s t = (decimal s <? decimal t)%N.
Proof.
  revert t. induction s as [|a s' IH]; intros [|b t'] Hlen Hs Ht;
    try discriminate Hlen.
  - reflexivity.
  - cbn [String.length] in Hlen. injection Hlen as Hlen.
    cbn [all_digits] in Hs, Ht.
    apply andb_true_iff in Hs as [Ha Hs], Ht as [Hb Ht].
    unfold is_digit in Ha, Hb.
    apply andb_true_iff in Ha as [Ha _], Hb as [Hb _].
    apply N.leb_le in Ha, Hb.
    pose proof (decimal_bound s' Hs) as Bs.
    pose proof (decimal_bound t' Ht) as Bt.
    rewrite !decimal_cons, <- Hlen in *. cbn [str_lt].
    set (P := (10 ^ N.of_nat (String.length s'))%N) in *.
    destruct (N.ltb_spec (N_of_ascii a) (N_of_ascii b)) as [Hab | Hab].
    + symmetry. apply N.ltb_lt. nia.
    + destruct (N.ltb_spec (N_of_ascii b) (N_of_ascii a)) as [Hba | Hba].
      * symmetry. apply N.ltb_ge. nia.
      * assert (Heq : N_of_ascii a = N_of_ascii b) by lia.
        rewrite (IH t' Hlen Hs Ht), Heq.
        destruct (N.ltb_spec (decimal s') (decimal t'));
          symmetry; [apply N.ltb_lt | apply N.ltb_ge]; lia.
Qed.

(** X9: for a bridge of model ["BSB002"] whose firmware version is a
    string of ten decimal digits, the string comparison of the advisory
    is the comparison of the version numbers: after a run that set the
    bridge up the security notification is issued when the number is below
    1935144040, and no notification is issued when it is not. *)
Theorem firmware_check_is_numeric (s : State) :
  is_Some (data (st_entry s) !! "host") →
  bridge_async_setup bridge = true →
  let config := bridge_api_config bridge in
  modelid config = "BSB002" →
  String.length (swversion config) = 10 →
  all_digits (swversion config) = true →
  let r := async_setup_entry s in
  ((decimal (swversion config) < 1935144040)%N →
   notifications (st_hass r.1)
   = notifications (st_hass s) ++ [security_notification])
  ∧ ((1935144040 ≤ decimal (swversion config))%N →
     notifications (st_hass r.1) = notifications (st_hass s)).
Proof.
  intros [host Hhost] Hset. cbv zeta. intros Hmodel Hlen Hdigits.
  rewrite async_setup_entry_run, Hhost. cbv zeta. rewrite Hset. cbn [fst].
  destruct (loaded_advisories (merged (legacy_record s) s)) as [-> _].
  destruct (merge_frame_merged (legacy_record s) s)
    as (_ & _ & _ & Hn & _).
  unfold advised. rewrite Hmodel.
  rewrite (str_lt_decimal _ "1935144040" Hlen Hdigits eq_refl).
  change (decimal "1935144040") with 1935144040%N. cbn [String.eqb andb].
  change (("BSB002" =? "BSB002")%string) with true. cbn [andb].
  split; intros Hv.
  - apply N.ltb_lt in Hv. rewrite Hv. cbn. rewrite Hn. reflexivity.
  - apply N.ltb_ge in Hv. rewrite Hv.
    destruct (String.eqb _ "readytoinstall"); cbn; exact Hn.
Qed.

(** ** What a run keeps *)

Lemma migrated_data_back key dflt s k v :
  data (st_entry (opt_update (migration_write key dflt (st_entry s)) s)) !! k
  = Some v →
  data (st_entry s) !! k = Some v.
Proof.
  rewrite migrated_data.
  destruct (migration_write _ _ _); [|auto].
  destruct (decide (key = k)); [discriminate | auto].
Qed.

Lemma override_options_other config s k :
  k ≠ CONF_ALLOW_UNREACHABLE → k ≠ CONF_ALLOW_HUE_GROUPS →
  options (st_entry (opt_update (override_write config (st_entry s)) s)) !! k
  = options (st_entry s) !! k.
Proof.
  intros Hu Hg. destruct config as [c|]; [|reflexivity].
  rewrite override_write_lookup, override_options_lookup_other by assumption.
  reflexivity.
Qed.

Lemma merged_maps_frame config s :
  let entry := st_entry s in
  let entry' := st_entry (merged config s) in
  data entry' !! "host" = data entry !! "host"
  ∧ (∀ k, k ≠ CONF_ALLOW_UNREACHABLE → k ≠ CONF_ALLOW_HUE_GROUPS →
          data entry' !! k = data entry !! k
          ∧ options entry' !! k = options entry !! k)
  ∧ (∀ k, is_Some (options entry !! k) → is_Some (options entry' !! k))
  ∧ (∀ k v, data entry' !! k = Some v → data entry !! k = Some v).
Proof.
  cbv zeta. split; [apply merged_host|]. unfold merged. split; [|split].
  - intros k Hu Hg. split.
    + rewrite override_keeps_data.
      rewrite !migrated_data_ne by congruence. reflexivity.
    + rewrite override_options_other by assumption.
      rewrite !migrated_options_ne by congruence. reflexivity.
  - intros k Hk.
    apply override_options_mono, migrated_options_mono, migrated_options_mono.
    exact Hk.
  - intros k v. rewrite override_keeps_data. intros Hk.
    apply migrated_data_back in Hk. apply migrated_data_back in Hk. exact Hk.
Qed.

(** X10: whatever its outcome, a run of [async_setup_entry] keeps the
    entry's [entry_id] and [host] and the legacy host table; in [data]
    and [options] it changes no key other than the two flags; it never
    removes a key from [options] and never adds or changes a key of
    [data]. *)
Theorem run_frame (s : State) :
  let entry := st_entry s in
  let entry' := st_entry (async_setup_entry s).1 in
  let hass' := st_hass (async_setup_entry s).1 in
  entry_id entry' = entry_id entry
  ∧ data_configs hass' = data_configs (st_hass s)
  ∧ data entry' !! "host" = data entry !! "host"
  ∧ (∀ k, k ≠ CONF_ALLOW_UNREACHABLE → k ≠ CONF_ALLOW_HUE_GROUPS →
          data entry' !! k = data entry !! k
          ∧ options entry' !! k = options entry !! k)
  ∧ (∀ k, is_Some (options entry !! k) → is_Some (options entry' !! k))
  ∧ (∀ k v, data entry' !! k = Some v → data entry !! k = Some v).
Proof.
  cbv zeta. rewrite async_setup_entry_run.
  destruct (data (st_entry s) !! "host") as [host|] eqn:Hhost;
    [|cbn [fst]; rewrite Hhost; repeat split; auto].
  cbv zeta.
  destruct (merge_frame_merged (legacy_record s) s)
    as (_ & Hc & _ & _ & _ & Hid & _).
  destruct (merged_maps_frame (legacy_record s) s) as (Hh & Hk & Ho & Hd).
  rewrite Hhost in Hh.
  destruct (bridge_async_setup bridge); cbn [fst].
  - destruct (loaded_hass (merged (legacy_record s) s))
      as (_ & _ & _ & Hid' & _).
    destruct (loaded_frame (merged (legacy_record s) s)) as [Hc' _].
    destruct (loaded_entry_maps (merged (legacy_record s) s)) as [-> ->].
    rewrite Hid', Hc'. auto 10.
  - auto 10.
Qed.

Lemma merged_options_flag config s key dflt :
  is_flag key dflt →
  (∀ c, config = Some c → conf_get key c = None) →
  (migration_due key dflt (st_entry s) →
   options (st_entry (merged config s)) !! key = data (st_entry s) !! key)
  ∧ (¬ migration_due key dflt (st_entry s) →
     options (st_entry (merged config s)) !! key
     = options (st_entry s) !! key).
Proof.
  intros Hflag Hnone. unfold merged.
  set (s1 := opt_update (migration_write CONF_ALLOW_UNREACHABLE _ _) s).
  set (s2 := opt_update (migration_write CONF_ALLOW_HUE_GROUPS _ _) s1).
  assert (Hov : options (st_entry (opt_update (override_write config
                                                 (st_entry s2)) s2)) !! key
                = options (st_entry s2) !! key).
  { destruct config as [c|]; [|reflexivity].
    rewrite override_write_lookup.
    assert (Hlk : override_options c (st_entry s2) !! key
                  = overrides key c (st_entry s2)).
    { destruct Hflag as [[-> _] | [-> _]];
        [apply override_options_lookup_unreachable
        |apply override_options_lookup_hue_groups]. }
    rewrite Hlk. unfold overrides. rewrite (Hnone c eq_refl). reflexivity. }
  rewrite Hov. clear Hov.
  destruct Hflag as [[-> ->] | [-> ->]].
  - subst s2 s1. rewrite migrated_options_unreachable. split.
    + intros Hdue. destruct (migration_write_due _ _ _ Hdue) as (v & _ & ->).
      reflexivity.
    + intros Hn. rewrite (migration_write_not_due _ _ _ Hn). reflexivity.
  - assert (Hdue1 : migration_due CONF_ALLOW_HUE_GROUPS
                      DEFAULT_ALLOW_HUE_GROUPS (st_entry s1)
                    ↔ migration_due CONF_ALLOW_HUE_GROUPS
                        DEFAULT_ALLOW_HUE_GROUPS (st_entry s))
      by apply migration_due_other, flag_keys_differ.
    assert (Hd1 : data (st_entry s1) !! CONF_ALLOW_HUE_GROUPS
                  = data (st_entry s) !! CONF_ALLOW_HUE_GROUPS)
      by apply migrated_data_ne, flag_keys_differ.
    assert (Ho1 : options (st_entry s1) !! CONF_ALLOW_HUE_GROUPS
                  = options (st_entry s) !! CONF_ALLOW_HUE_GROUPS)
      by apply migrated_options_ne, flag_keys_differ.
    subst s2. rewrite migrated_options. split.
    + intros Hdue. apply Hdue1 in Hdue.
      destruct (migration_write_due _ _ _ Hdue) as (v & _ & ->).
      rewrite decide_True by reflexivity. exact Hd1.
    + intros Hn. rewrite migration_write_not_due by (rewrite Hdue1; exact Hn).
      exact Ho1.
Qed.

(** X11: no flag value is lost or invented when the legacy configuration
    has nothing to say about a flag (no record for the entry's host, or a
    record without that flag): after a run the flag in [options] is the
    value [data] held if the migration was due, and is what [options]
    held before (possibly nothing) otherwise. *)
Theorem options_without_legacy (s : State) (key : string) (dflt : bool) :
  is_flag key dflt →
  is_Some (data (st_entry s) !! "host") →
  (∀ h c, data (st_entry s) !! "host" = Some (VStr h) →
          data_configs (st_hass s) !! h = Some c →
          conf_get key c = None) →
  let entry := st_entry s in
  let entry' := st_entry (async_setup_entry s).1 in
  (migration_due key dflt entry → options entry' !! key = data entry !! key)
  ∧ (¬ migration_due key dflt entry →
     options entry' !! key = options entry !! key).
Proof.
  intros Hflag Hhost Hlegacy. cbv zeta.
  destruct (async_setup_entry_maps s Hhost) as [_ ->].
  apply merged_options_flag; [exact Hflag|].
  intros c Hc. apply legacy_record_Some in Hc as (h & Hh & Hc).
  apply (Hlegacy h c); assumption.
Qed.

(** X13: each merge stage is idempotent: run twice in a row it does what
    one run does, to the entry and to the log of writes alike. *)
Theorem merge_stages_idempotent (config : option BridgeConf) (s : State) :
  (migrate_allow_unreachable ;; migrate_allow_unreachable) s
  = migrate_allow_unreachable s
  ∧ (migrate_allow_hue_groups ;; migrate_allow_hue_groups) s
    = migrate_allow_hue_groups s
  ∧ (overwrite_from_yaml config ;; overwrite_from_yaml config) s
    = overwrite_from_yaml config s.
Proof.
  split; [|split]; rewrite bind_run.
  - rewrite !migrate_allow_unreachable_run, migration_settles. reflexivity.
  - rewrite !migrate_allow_hue_groups_run, migration_settles. reflexivity.
  - rewrite !overwrite_from_yaml_run, override_write_settled. reflexivity.
Qed.

(** X14: the two flag migrations commute on the entry: run in either
    order they leave the same entry. *)
Theorem migrations_commute (s : State) :
  st_entry ((migrate_allow_unreachable ;; migrate_allow_hue_groups) s).1
  = st_entry ((migrate_allow_hue_groups ;; migrate_allow_unreachable) s).1.
Proof.
  rewrite !bind_run.
  rewrite !migrate_allow_unreachable_run, !migrate_allow_hue_groups_run.
  rewrite migrate_allow_unreachable_run. cbn [fst].
  destruct s as [h [eid uid d o]]. unfold migration_write. cbn [st_entry data options].
  destruct (o !! CONF_ALLOW_UNREACHABLE) as [ou|] eqn:Hou;
    destruct (d !! CONF_ALLOW_UNREACHABLE) as [du|] eqn:Hdu;
    destruct (o !! CONF_ALLOW_HUE_GROUPS) as [og|] eqn:Hog;
    destruct (d !! CONF_ALLOW_HUE_GROUPS) as [dg|] eqn:Hdg;
    cbn [opt_update st_entry data options run_update apply_update
         upd_data upd_options upd_unique_id default from_option id
         entry_id unique_id];
    rewrite ?Hou, ?Hdu, ?Hog, ?Hdg;
    try reflexivity;
    try (destruct (py_ne du (VBool DEFAULT_ALLOW_UNREACHABLE)) eqn:Hpu);
    try (destruct (py_ne dg (VBool DEFAULT_ALLOW_HUE_GROUPS)) eqn:Hpg);
    cbn [opt_update st_entry data options run_update apply_update
         upd_data upd_options upd_unique_id default from_option id
         entry_id unique_id];
    rewrite ?lookup_insert_ne, ?lookup_delete_ne
      by (try exact flag_keys_differ; symmetry; exact flag_keys_differ);
    rewrite ?Hou, ?Hdu, ?Hog, ?Hdg, ?Hpu, ?Hpg;
    cbn [opt_update st_entry data options run_update apply_update
         upd_data upd_options upd_unique_id default from_option id
         entry_id unique_id];
    try reflexivity.
  unfold apply_update. cbn. f_equal.
  - apply delete_delete.
  - apply insert_insert_ne. symmetry. exact flag_keys_differ.
Qed.

(** X15: a run issues at most four persistence writes - one per
    migration, one override, one unique identifier - and at most three
    when the bridge's setup fails or the entry already has a unique
    identifier; it never removes a write from the log. *)
Theorem run_writes_bound (s : State) :
  ∃ new,
    update_calls (st_hass (async_setup_entry s).1)
    = update_calls (st_hass s) ++ new
    ∧ (length new ≤ 4)%nat
    ∧ (bridge_async_setup bridge = false → (length new ≤ 3)%nat)
    ∧ (is_Some (unique_id (st_entry s)) → (length new ≤ 3)%nat).
Proof.
  rewrite async_setup_entry_run.
  destruct (data (st_entry s) !! "host") as [host|].
  - cbv zeta.
    destruct (merged_writes (legacy_record s) s) as (new & Hnew & Hlen & _).
    destruct (merge_frame_merged (legacy_record s) s)
      as (_ & _ & _ & _ & _ & _ & Huid).
    destruct (bridge_async_setup bridge) eqn:Hset; cbn [fst].
    + destruct (loaded_hass (merged (legacy_record s) s))
        as (_ & _ & Hw & _).
      exists (new ++ option_list (unique_id_write
                                    (st_entry (merged (legacy_record s) s)))).
      rewrite Hw, Hnew, <- app_assoc, length_app.
      unfold unique_id_write. rewrite Huid.
      split; [reflexivity|].
      destruct (unique_id (st_entry s)) as [u|]; cbn.
      * repeat split; intros; lia.
      * repeat split; [lia | discriminate | intros [u Hu]; discriminate].
    + exists new. split; [exact Hnew|]. repeat split; intros; lia.
  - exists []. cbn. rewrite app_nil_r. repeat split; intros; lia.
Qed.

End Hue.

(** ** Running the reconciler twice *)

(** X12: the second of two runs on the same entry, each with the bridge
    object it builds, issues no persistence write once the first has
    returned true. *)
Lemma second_run_no_writes (DOMAIN : string) (dflt_unreachable dflt_groups : bool)
    (normalize_bridge_id : string → string) (bridge1 bridge2 : HueBridge)
    (s : State) :
  let run := async_setup_entry DOMAIN dflt_unreachable dflt_groups
                               normalize_bridge_id in
  (run bridge1 s).2 = Return true →
  update_calls (st_hass (run bridge2 (run bridge1 s).1).1)
  = update_calls (st_hass (run bridge1 s).1).
Proof.
  cbv zeta. intros Hrun.
  destruct (run_settles DOMAIN dflt_unreachable dflt_groups normalize_bridge_id
              bridge1 s Hrun) as (Hu & Hg & Ho & Hid).
  apply settled_no_writes; assumption.
Qed.

(** ** Scenarios *)

(** The reconciler of an installation whose [allow_unreachable] defaults
    to false and whose [allow_hue_groups] defaults to true. *)
Local Abbreviation setup_entry_with bridge :=
  (async_setup_entry "hue" false true (fun bridge_id => bridge_id) bridge).

(** The merge-order scenario: the migrated [true] is replaced by the
    legacy [false]. *)
Lemma legacy_override_wins_scenario :
  options (st_entry (setup_entry_with vulnerable_bridge
                       (mkState legacy_hass unmigrated_entry)).1)
    !! CONF_ALLOW_UNREACHABLE
  = Some (VBool false).
Proof.
  destruct (legacy_override_wins "hue" false true (fun bridge_id => bridge_id)
              vulnerable_bridge (mkState legacy_hass unmigrated_entry)
              "10.0.0.5" legacy_off eq_refl eq_refl eq_refl eq_refl)
    as [(v & Hv & _ & Hbool) _].
  rewrite Hv. f_equal. apply Hbool. vm_compute. discriminate.
Defined.

(** The migration scenario: [data = {host, allow_unreachable: true}] and
    empty [options] become [data = {host}] and
    [options = {allow_unreachable: true}] with one write. *)
Lemma flag_migration_scenario :
  let s' := (migrate_allow_unreachable false
               (mkState empty_hass unmigrated_entry)).1 in
  data (st_entry s') = {[ "host" := VStr "10.0.0.5" ]}
  ∧ options (st_entry s') = {[ CONF_ALLOW_UNREACHABLE := VBool true ]}
  ∧ length (update_calls (st_hass s')) = 1.
Proof.
  destruct (flag_migration_rule false true) as (Hmoves & _ & _).
  destruct (Hmoves (mkState empty_hass unmigrated_entry)) as (_ & Hdue & _).
  destruct Hdue as (v & Hv & Ho & Hd & Hw).
  { exists (VBool true). repeat split; reflexivity. }
  vm_compute in Hv. injection Hv as <-.
  cbv zeta. rewrite Hw, Hd, Ho. repeat split; reflexivity.
Defined.

(** The override stage on [options = {allow_unreachable: true}] and a
    legacy record with [allow_unreachable: false]: one combined write. *)
Lemma legacy_override_scenario :
  let s := mkState empty_hass
             (mkConfigEntry "entry-1" None {[ "host" := VStr "10.0.0.5" ]}
                            {[ CONF_ALLOW_UNREACHABLE := VBool true ]}) in
  let s' := (overwrite_from_yaml (Some legacy_off) s).1 in
  options (st_entry s') !! CONF_ALLOW_UNREACHABLE = Some (VBool false)
  ∧ options (st_entry s') !! CONF_ALLOW_HUE_GROUPS = None
  ∧ length (update_calls (st_hass s')) = 1.
Proof.
  cbv zeta.
  destruct (legacy_override_rule legacy_off
              (mkState empty_hass
                 (mkConfigEntry "entry-1" None {[ "host" := VStr "10.0.0.5" ]}
                                {[ CONF_ALLOW_UNREACHABLE := VBool true ]})))
    as (Hflags & _ & Hwrite & _).
  destruct (Hflags CONF_ALLOW_UNREACHABLE (or_introl eq_refl)) as [Hu _].
  destruct (Hflags CONF_ALLOW_HUE_GROUPS (or_intror eq_refl)) as [_ Hg].
  assert (Hdiff : legacy_differs CONF_ALLOW_UNREACHABLE legacy_off
                    (mkConfigEntry "entry-1" None
                       {[ "host" := VStr "10.0.0.5" ]}
                       {[ CONF_ALLOW_UNREACHABLE := VBool true ]})).
  { exists (VBool false). split; [reflexivity|]. right.
    exists (VBool true). split; reflexivity. }
  split; [|split].
  - apply Hu, Hdiff.
  - rewrite Hg; [reflexivity|]. intros (c & Hc & _). discriminate Hc.
  - rewrite Hwrite; [reflexivity|]. left. exact Hdiff.
Defined.

(** The migration of [allow_unreachable] leaves [host] in [data], and the
    override leaves an option that is not a flag in [options]. *)
Lemma merge_stages_frame_scenario :
  data (st_entry (migrate_allow_unreachable false
                    (mkState empty_hass unmigrated_entry)).1) !! "host"
  = Some (VStr "10.0.0.5")
  ∧ options
      (st_entry
         (overwrite_from_yaml (Some legacy_off)
            (mkState empty_hass
               (mkConfigEntry "entry-1" None {[ "host" := VStr "10.0.0.5" ]}
                  {[ CONF_ALLOW_UNREACHABLE := VBool true;
                     "scan_interval" := VInt 5 ]}))).1) !! "scan_interval"
    = Some (VInt 5).
Proof.
  destruct (merge_stages_frame false true (Some legacy_off))
    as (Hflag & _ & Hoverride).
  destruct (Hflag (mkState empty_hass unmigrated_entry)) as (_ & Hhost & _).
  destruct (Hoverride
              (mkState empty_hass
                 (mkConfigEntry "entry-1" None {[ "host" := VStr "10.0.0.5" ]}
                    {[ CONF_ALLOW_UNREACHABLE := VBool true;
                       "scan_interval" := VInt 5 ]})))
    as (_ & Hother & _).
  split.
  - rewrite Hhost. reflexivity.
  - rewrite (Hother "scan_interval"); [reflexivity | discriminate | discriminate].
Defined.

(** A migrated flag is gone from [data]. *)
Lemma data_after_merge_scenario :
  data (st_entry (setup_entry_with vulnerable_bridge
                    (mkState empty_hass unmigrated_entry)).1)
    !! CONF_ALLOW_UNREACHABLE
  = None.
Proof.
  apply (data_after_merge "hue" false true (fun bridge_id => bridge_id)
           vulnerable_bridge (mkState empty_hass unmigrated_entry)
           (ex_intro _ (VStr "10.0.0.5") eq_refl)
           CONF_ALLOW_UNREACHABLE false (or_introl (conj eq_refl eq_refl))).
  exists (VBool true). repeat split; reflexivity.
Defined.

(** C5 as stated fails: a flag that [data] holds at its default is not
    migrated, so [data] still holds it after a run that set the bridge up. *)
Lemma default_flag_stays_in_data :
  (setup_entry_with vulnerable_bridge
     (mkState empty_hass default_flag_entry)).2 = Return true
  ∧ ¬ flags_gone_from_data
        (st_entry (setup_entry_with vulnerable_bridge
                     (mkState empty_hass default_flag_entry)).1).
Proof.
  split; [reflexivity|].
  intros [Hgone _]. vm_compute in Hgone. discriminate Hgone.
Qed.

(** A run on the fully migrated entry writes nothing. *)
Lemma fully_migrated_scenario :
  update_calls (st_hass (setup_entry_with vulnerable_bridge
                           (mkState legacy_hass migrated_entry)).1) = [].
Proof.
  apply (fully_migrated_no_writes "hue" false true (fun bridge_id => bridge_id)
           vulnerable_bridge (mkState legacy_hass migrated_entry)).
  - reflexivity.
  - reflexivity.
  - intros h config Hh Hc. vm_compute in Hh. injection Hh as <-.
    vm_compute in Hc. injection Hc as <-.
    split; intros c Hc; vm_compute in Hc; [|discriminate Hc].
    injection Hc as <-. exists (VBool false). split; reflexivity.
  - eexists. reflexivity.
Defined.

(** The advisory scenario: model ["BSB002"] with firmware ["1935144030"]
    and an update ready to install gets the notification only. *)
Lemma firmware_advisory_scenario :
  let r := setup_entry_with vulnerable_bridge
             (mkState empty_hass unmigrated_entry) in
  notifications (st_hass r.1) = [security_notification]
  ∧ warnings (st_hass r.1) = []
  ∧ r.2 = Return true.
Proof.
  destruct (firmware_advisory_exclusive "hue" false true
              (fun bridge_id => bridge_id) vulnerable_bridge
              (mkState empty_hass unmigrated_entry))
    as (_ & Hresult & Hsecurity).
  destruct (Hsecurity (ex_intro _ (VStr "10.0.0.5") eq_refl)
                      eq_refl eq_refl eq_refl) as [Hn Hw].
  cbv zeta.
  rewrite Hn, Hw, (Hresult (ex_intro _ (VStr "10.0.0.5") eq_refl)).
  repeat split; reflexivity.
Defined.

(** The failure scenario: nothing is recorded for the entry. *)
Lemma failed_setup_scenario :
  let r := setup_entry_with unreachable_bridge
             (mkState empty_hass unmigrated_entry) in
  r.2 = Return false
  ∧ data_domain (st_hass r.1) = ∅
  ∧ device_calls (st_hass r.1) = []
  ∧ unique_id (st_entry r.1) = None.
Proof.
  destruct (failed_setup_stops "hue" false true (fun bridge_id => bridge_id)
              unreachable_bridge (mkState empty_hass unmigrated_entry)
              (ex_intro _ (VStr "10.0.0.5") eq_refl) eq_refl)
    as (Hr & Hd & Hdev & Hu & _).
  cbv zeta. rewrite Hr, Hd, Hdev, Hu. repeat split; reflexivity.
Defined.

(** The unload scenarios: with a bridge stored, and with none. *)
Lemma unload_entry_scenario :
  (async_unload_entry migrated_entry
     (set_data_domain (insert "entry-1" unreachable_bridge) empty_hass)).2
  = Return true
  ∧ async_unload_entry migrated_entry empty_hass
    = (empty_hass, Raise (KeyError "entry-1")).
Proof.
  split.
  - destruct (unload_entry
                (set_data_domain (insert "entry-1" unreachable_bridge)
                                 empty_hass) migrated_entry) as (Hstored & _).
    destruct (Hstored unreachable_bridge eq_refl) as [Hr _].
    rewrite Hr. reflexivity.
  - destruct (unload_entry empty_hass migrated_entry) as (_ & Hnone & _).
    apply Hnone. reflexivity.
Defined.

(** Two legacy hosts, one of them stored by an entry: one request for
    the new host, none for the stored one. *)
Lemma import_requests_scenario :
  let hass := mkHass ∅ ∅ [migrated_entry] [] [] [] [] [] in
  let config := Some (Some [legacy_off;
                            mkBridgeConf "10.0.0.6" None None None]) in
  requests_for "10.0.0.6" (new_tasks "hue" config hass) = 1
  ∧ requests_for "10.0.0.5" (new_tasks "hue" config hass) = 0.
Proof.
  cbv zeta.
  destruct (import_requests_per_record "hue"
              (Some (Some [legacy_off; mkBridgeConf "10.0.0.6" None None None]))
              (mkHass ∅ ∅ [migrated_entry] [] [] [] [] []))
    as (_ & _ & _ & Hcount & _).
  destruct (Hcount "10.0.0.6") as [_ Hnew].
  destruct (Hcount "10.0.0.5") as [Hold _].
  split.
  - rewrite Hnew; [reflexivity|]. intros (e & Hin & Hh).
    apply list_elem_of_singleton in Hin as ->. vm_compute in Hh. discriminate Hh.
  - apply Hold. exists migrated_entry.
    split; [apply list_elem_of_here | reflexivity].
Defined.

(** C4 as stated fails: two legacy records naming the same new host get
    two requests for it, not one. *)
Lemma duplicate_host_two_requests :
  let config := Some (Some [legacy_off; legacy_off]) in
  requests_for "10.0.0.5" (new_tasks "hue" config empty_hass) = 2
  ∧ ¬ one_request_per_host "hue" config empty_hass.
Proof.
  cbv zeta. split; [reflexivity|].
  intros Hone.
  destruct (Hone "10.0.0.5") as [Hnew _].
  { apply list_elem_of_here. }
  assert (Hcount : requests_for "10.0.0.5"
                     (new_tasks "hue" (Some (Some [legacy_off; legacy_off]))
                                empty_hass) = 1).
  { apply Hnew. intros (e & Hin & _). inversion Hin. }
  vm_compute in Hcount. discriminate Hcount.
Qed.

(** ** Scenarios of the further properties *)

(** Without a legacy section both tables end up empty. *)
Lemma async_setup_resets_scenario :
  data_domain (async_setup "hue" None stale_hass).1 = ∅
  ∧ data_configs (async_setup "hue" None stale_hass).1 = ∅
  ∧ created_tasks (async_setup "hue" None stale_hass).1 = [].
Proof.
  destruct (async_setup_resets "hue" None stale_hass)
    as (_ & Hd & _ & _ & _ & _ & _ & Hnone).
  destruct (Hnone eq_refl) as [Hc Ht].
  rewrite Hd, Hc, Ht. repeat split; reflexivity.
Defined.

(** Two records for one host: the table holds the second. *)
Lemma async_setup_table_scenario :
  data_configs (async_setup "hue" (Some (Some [legacy_on; legacy_off]))
                            stale_hass).1 !! "10.0.0.5"
  = Some legacy_off
  ∧ conf_host legacy_off = "10.0.0.5".
Proof.
  destruct (async_setup_table "hue" (Some (Some [legacy_on; legacy_off]))
              stale_hass "10.0.0.5") as (Hlast & _ & Hhost).
  split; [rewrite Hlast; reflexivity|].
  apply (Hhost legacy_off). rewrite Hlast. reflexivity.
Defined.

(** The last of two records for the host decides the flag. *)
Lemma setup_then_setup_entry_scenario :
  ∃ v, options
         (st_entry
            (setup_entry_with vulnerable_bridge
               (mkState (async_setup "hue"
                           (Some (Some [legacy_on; legacy_off]))
                           empty_hass).1
                        unmigrated_entry)).1)
         !! CONF_ALLOW_UNREACHABLE = Some v
       ∧ py_eq v (VBool false) = true.
Proof.
  apply (setup_then_setup_entry "hue" false true (fun bridge_id => bridge_id)
           vulnerable_bridge (Some (Some [legacy_on; legacy_off])) empty_hass
           unmigrated_entry "10.0.0.5" legacy_off CONF_ALLOW_UNREACHABLE false
           (or_introl eq_refl) eq_refl eq_refl eq_refl).
Defined.

(** An entry without a host: [KeyError], nothing migrated. *)
Lemma missing_host_scenario :
  setup_entry_with vulnerable_bridge (mkState empty_hass hostless_entry)
  = (mkState empty_hass hostless_entry, Raise (KeyError "host")).
Proof.
  apply (missing_host_raises "hue" false true (fun bridge_id => bridge_id)
           vulnerable_bridge (mkState empty_hass hostless_entry) eq_refl).
Defined.

(** A successful setup stores the bridge and registers one device. *)
Lemma successful_setup_scenario :
  let r := setup_entry_with vulnerable_bridge
             (mkState empty_hass unmigrated_entry) in
  r.2 = Return true
  ∧ data_domain (st_hass r.1) !! "entry-1" = Some vulnerable_bridge
  ∧ length (device_calls (st_hass r.1)) = 1.
Proof.
  destruct (successful_setup_registers "hue" false true
              (fun bridge_id => bridge_id) vulnerable_bridge
              (mkState empty_hass unmigrated_entry)
              (ex_intro _ (VStr "10.0.0.5") eq_refl) eq_refl)
    as (Hr & Hd & Hdev).
  cbv zeta. rewrite Hr, Hd, Hdev. repeat split; reflexivity.
Defined.

(** An entry without a unique identifier gets the bridge's; an entry
    with one keeps it. *)
Lemma unique_id_scenario :
  unique_id (st_entry (setup_entry_with vulnerable_bridge
                         (mkState empty_hass unmigrated_entry)).1)
  = Some "001788fffe123456"
  ∧ unique_id
      (st_entry
         (async_setup_entry "hue" false true (fun _ => "another-id")
            vulnerable_bridge (mkState empty_hass migrated_entry)).1)
    = Some "001788fffe123456".
Proof.
  split.
  - destruct (unique_id_assigned_once "hue" false true
                (fun bridge_id => bridge_id) vulnerable_bridge
                (mkState empty_hass unmigrated_entry)
                (ex_intro _ (VStr "10.0.0.5") eq_refl) eq_refl)
      as (new & _ & Hnone & _).
    destruct (Hnone eq_refl) as [Hu _]. exact Hu.
  - destruct (unique_id_assigned_once "hue" false true
                (fun _ => "another-id") vulnerable_bridge
                (mkState empty_hass migrated_entry)
                (ex_intro _ (VStr "10.0.0.5") eq_refl) eq_refl)
      as (new & _ & _ & Hsome).
    destruct (Hsome "001788fffe123456" eq_refl) as [Hu _]. exact Hu.
Defined.

(** Setup, unload, unload again. *)
Lemma setup_then_unload_scenario :
  let s1 := (setup_entry_with vulnerable_bridge
               (mkState empty_hass unmigrated_entry)).1 in
  let r := async_unload_entry (st_entry s1) (st_hass s1) in
  r.2 = Return true
  ∧ data_domain r.1 = ∅
  ∧ (async_unload_entry (st_entry s1) r.1).2 = Raise (KeyError "entry-1").
Proof.
  destruct (setup_then_unload "hue" false true (fun bridge_id => bridge_id)
              vulnerable_bridge (mkState empty_hass unmigrated_entry)
              (ex_intro _ (VStr "10.0.0.5") eq_refl) eq_refl)
    as (Hr & Hd & Hagain).
  cbv zeta. rewrite Hr, Hd, Hagain. repeat split; reflexivity.
Defined.

(** The fixed firmware with an update ready: the warning only. *)
Lemma advisory_update_warning_scenario :
  let r := setup_entry_with updated_bridge
             (mkState empty_hass unmigrated_entry) in
  notifications (st_hass r.1) = []
  ∧ warnings (st_hass r.1) = [update_warning].
Proof.
  destruct (advisory_update_warning "hue" false true
              (fun bridge_id => bridge_id) updated_bridge
              (mkState empty_hass unmigrated_entry)
              (ex_intro _ (VStr "10.0.0.5") eq_refl) eq_refl
              (or_intror eq_refl))
    as (Hn & Hw & _).
  cbv zeta. rewrite Hn, (Hw eq_refl). split; reflexivity.
Defined.

(** Firmware 1935144030 is below 1935144040 as a number. *)
Lemma firmware_check_scenario :
  notifications (st_hass (setup_entry_with vulnerable_bridge
                            (mkState empty_hass unmigrated_entry)).1)
  = [security_notification].
Proof.
  destruct (firmware_check_is_numeric "hue" false true
              (fun bridge_id => bridge_id) vulnerable_bridge
              (mkState empty_hass unmigrated_entry)
              (ex_intro _ (VStr "10.0.0.5") eq_refl) eq_refl eq_refl eq_refl
              eq_refl)
    as (Hbelow & _).
  rewrite Hbelow; [reflexivity|]. vm_compute. reflexivity.
Defined.

(** The host of the entry survives a run that migrates a flag. *)
Lemma run_frame_scenario :
  data (st_entry (setup_entry_with vulnerable_bridge
                    (mkState legacy_hass unmigrated_entry)).1) !! "host"
  = Some (VStr "10.0.0.5")
  ∧ data_configs (st_hass (setup_entry_with vulnerable_bridge
                             (mkState legacy_hass unmigrated_entry)).1)
    = {[ "10.0.0.5" := legacy_off ]}.
Proof.
  destruct (run_frame "hue" false true (fun bridge_id => bridge_id)
              vulnerable_bridge (mkState legacy_hass unmigrated_entry))
    as (_ & Hc & Hh & _).
  rewrite Hc, Hh. split; reflexivity.
Defined.

(** Without a legacy record the migrated value is the final one. *)
Lemma options_without_legacy_scenario :
  options (st_entry (setup_entry_with vulnerable_bridge
                       (mkState empty_hass unmigrated_entry)).1)
    !! CONF_ALLOW_UNREACHABLE
  = Some (VBool true).
Proof.
  destruct (options_without_legacy "hue" false true
              (fun bridge_id => bridge_id) vulnerable_bridge
              (mkState empty_hass unmigrated_entry)
              CONF_ALLOW_UNREACHABLE false
              (or_introl (conj eq_refl eq_refl))
              (ex_intro _ (VStr "10.0.0.5") eq_refl))
    as [Hdue _].
  { intros h c _ Hc. vm_compute in Hc. discriminate Hc. }
  rewrite Hdue; [reflexivity|].
  exists (VBool true). repeat split; reflexivity.
Defined.

(** A second run, even with another bridge object, writes nothing. *)
Lemma second_run_scenario :
  let s1 := (setup_entry_with vulnerable_bridge
               (mkState legacy_hass unmigrated_entry)).1 in
  update_calls (st_hass (setup_entry_with updated_bridge s1).1)
  = update_calls (st_hass s1).
Proof.
  apply (second_run_no_writes "hue" false true (fun bridge_id => bridge_id)
           vulnerable_bridge updated_bridge
           (mkState legacy_hass unmigrated_entry) eq_refl).
Defined.

(** With a failing bridge the run writes at most three times. *)
Lemma run_writes_bound_scenario :
  ∃ new,
    update_calls (st_hass (setup_entry_with unreachable_bridge
                             (mkState legacy_hass unmigrated_entry)).1)
    = new
    ∧ (length new ≤ 3)%nat.
Proof.
  destruct (run_writes_bound "hue" false true (fun bridge_id => bridge_id)
              unreachable_bridge (mkState legacy_hass unmigrated_entry))
    as (new & Hnew & _ & Hfail & _).
  exists new. split; [exact Hnew | exact (Hfail eq_refl)].
Defined.
